(** * Compliance query client ([src/answerer.py]): retrieval, context
      assembly, answer generation and the orchestrator

    The client posts a question to the vector store, joins the texts of the
    returned chunks into a context, collects the source names, asks the
    language model for an answer and packs everything into a triple.  The
    two services are outside the program: their replies appear here as
    oracles, every call to them is recorded in a trace, and Python
    exceptions are results of type [res]. *)

From Stdlib Require Import String Ascii List ZArith QArith Lia Permutation Bool.
From Stdlib Require Import DecimalString.
Import ListNotations.
Local Close Scope Q_scope.
Local Open Scope string_scope.
Local Open Scope list_scope.

(** ** Python values *)

(** What [response.json()] can hand back: the Python image of a JSON
    document.  A dict is kept as its items in insertion order; lookup takes
    the first item with the key.  A float carries the exact rational value
    of the double (the non-finite constants that the json module also
    accepts are left out). *)
#[local] Unset Elimination Schemes.
Inductive value : Type :=
| VNone
| VBool (b : bool)
| VInt (z : Z)
| VFloat (q : Q)
| VStr (s : string)
| VList (l : list value)
| VDict (d : list (string * value)).
#[local] Set Elimination Schemes.

(** [type(v).__name__], as it appears in interpreter messages. *)
Definition type_name (v : value) : string :=
  match v with
  | VNone => "NoneType"
  | VBool _ => "bool"
  | VInt _ => "int"
  | VFloat _ => "float"
  | VStr _ => "str"
  | VList _ => "list"
  | VDict _ => "dict"
  end.

(** [isinstance(v, list)]. *)
Definition is_list (v : value) : bool :=
  match v with VList _ => true | _ => false end.

(** ** Exceptions *)

(** The exception classes the client can meet: Python's built-in ones, those
    of [json], those that [requests.exceptions] declares, and [LibraryError]
    for any other class that derives directly from [Exception] (the error
    classes of the language-model client, for instance). *)
Inductive exc_class : Type :=
| BaseException
| KeyboardInterrupt
| SystemExit
| Exception
| OSError
| ConnectionError
| ValueError
| TypeError
| LookupError
| KeyError
| IndexError
| json_JSONDecodeError
| requests_RequestException
| requests_HTTPError
| requests_ConnectionError
| requests_ProxyError
| requests_SSLError
| requests_Timeout
| requests_ConnectTimeout
| requests_ReadTimeout
| requests_TooManyRedirects
| requests_ChunkedEncodingError
| requests_InvalidJSONError
| requests_JSONDecodeError
| requests_InvalidURL
| LibraryError (name : string).

(** The direct base classes, as each class statement lists them:
    [class Timeout(RequestException)],
    [class ConnectTimeout(ConnectionError, Timeout)],
    [class ReadTimeout(Timeout)],
    [class JSONDecodeError(InvalidJSONError, CompatJSONDecodeError)],
    [class InvalidURL(RequestException, ValueError)] and so on;
    [RequestException] derives from [IOError], which is [OSError]. *)
Definition bases (c : exc_class) : list exc_class :=
  match c with
  | BaseException => []
  | KeyboardInterrupt => [BaseException]
  | SystemExit => [BaseException]
  | Exception => [BaseException]
  | OSError => [Exception]
  | ConnectionError => [OSError]
  | ValueError => [Exception]
  | TypeError => [Exception]
  | LookupError => [Exception]
  | KeyError => [LookupError]
  | IndexError => [LookupError]
  | json_JSONDecodeError => [ValueError]
  | requests_RequestException => [OSError]
  | requests_HTTPError => [requests_RequestException]
  | requests_ConnectionError => [requests_RequestException]
  | requests_ProxyError => [requests_ConnectionError]
  | requests_SSLError => [requests_ConnectionError]
  | requests_Timeout => [requests_RequestException]
  | requests_ConnectTimeout => [requests_ConnectionError; requests_Timeout]
  | requests_ReadTimeout => [requests_Timeout]
  | requests_TooManyRedirects => [requests_RequestException]
  | requests_ChunkedEncodingError => [requests_RequestException]
  | requests_InvalidJSONError => [requests_RequestException]
  | requests_JSONDecodeError => [requests_InvalidJSONError; json_JSONDecodeError]
  | requests_InvalidURL => [requests_RequestException; ValueError]
  | LibraryError _ => [Exception]
  end.

Definition exc_class_eq_dec (c d : exc_class) : {c = d} + {c <> d}.
Proof. decide equality. apply string_dec. Defined.

Definition exc_class_eqb (c d : exc_class) : bool :=
  if exc_class_eq_dec c d then true else false.

(** A class with everything it inherits from, to the given depth. *)
Fixpoint ancestors (depth : nat) (c : exc_class) : list exc_class :=
  match depth with
  | O => [c]
  | S k => c :: flat_map (ancestors k) (bases c)
  end.

(** [issubclass(c, d)]; no chain of [bases] is longer than six. *)
Definition issubclass (c d : exc_class) : bool :=
  existsb (exc_class_eqb d) (ancestors 6 c).

(** An exception object: its class and what [str(e)] gives. *)
Record exn : Type := mkExn { exc_type : exc_class; exc_str : string }.

Definition isinstance (e : exn) (c : exc_class) : bool :=
  issubclass (exc_type e) c.

(** [except (c1, c2, ...)]: does the clause take [e]? *)
Definition clause_matches (cs : list exc_class) (e : exn) : bool :=
  existsb (isinstance e) cs.

(** ** Results and the trace monad *)

Inductive res (A : Type) : Type :=
| Ok (a : A)
| Raise (e : exn).
Arguments Ok {A} a.
Arguments Raise {A} e.

Definition res_bind {A B} (r : res A) (k : A -> res B) : res B :=
  match r with
  | Ok a => k a
  | Raise e => Raise e
  end.

(** One role-tagged message of a chat request. *)
Record chat_message : Type :=
  mkMessage { role : string; content : string }.

(** What the program does to the outside world. *)
Inductive event : Type :=
| HttpPost (url : string) (payload : value) (timeout : Z)
| LlmCreate (model : string) (temperature : Q) (messages : list chat_message)
| LogError (msg : string).

(** A computation reads the trace so far and returns its result with the
    trace extended by what it did. *)
Definition M (A : Type) : Type := list event -> res A * list event.

Definition ret {A} (a : A) : M A := fun tr => (Ok a, tr).

Definition raise {A} (e : exn) : M A := fun tr => (Raise e, tr).

Definition bind {A B} (m : M A) (k : A -> M B) : M B :=
  fun tr =>
    match m tr with
    | (Ok a, tr') => k a tr'
    | (Raise e, tr') => (Raise e, tr')
    end.

Definition lift {A} (r : res A) : M A := fun tr => (r, tr).

Definition emit (ev : event) : M unit := fun tr => (Ok tt, tr ++ [ev]).

Declare Scope py_scope.
Delimit Scope py_scope with py.
Notation "x <- m ;; k" := (bind m (fun x => k))
  (at level 61, m at next level, right associativity) : py_scope.
Notation "m ;;; k" := (bind m (fun _ => k))
  (at level 61, right associativity) : py_scope.
Notation "x <~ r ;; k" := (res_bind r (fun x => k))
  (at level 61, r at next level, right associativity) : py_scope.
Local Open Scope py_scope.

(** The handlers of a [try] statement, in the order they are written: the
    first clause that takes the exception runs; none means it goes on up. *)
Fixpoint dispatch {B} (e : exn)
    (handlers : list (list exc_class * (exn -> M B))) : M B :=
  match handlers with
  | [] => raise e
  | (cs, h) :: rest => if clause_matches cs e then h e else dispatch e rest
  end.

(** [try: body / except ...: handlers / else: k].  A [try] whose handlers
    all leave the function (by [return] or [raise]) and that is followed by
    more statements is this form, with those statements as [k]. *)
Definition try_except_else {A B} (body : M A)
    (handlers : list (list exc_class * (exn -> M B))) (k : A -> M B) : M B :=
  fun tr =>
    match body tr with
    | (Ok a, tr') => k a tr'
    | (Raise e, tr') => dispatch e handlers tr'
    end.

Definition try_except {A} (body : M A)
    (handlers : list (list exc_class * (exn -> M A))) : M A :=
  try_except_else body handlers ret.

(** ** Built-in operations the client uses *)

Definition nl : string := String (ascii_of_nat 10) EmptyString.

(** [repr(k)] for a key of plain letters: the key in single quotes. *)
Definition repr_key (k : string) : string := "'" ++ k ++ "'".

Fixpoint dict_get (k : string) (d : list (string * value)) : option value :=
  match d with
  | [] => None
  | (k', v) :: rest => if String.eqb k k' then Some v else dict_get k rest
  end.

(** [v[k]] for a string key [k]: a dict gives the value or [KeyError(k)];
    nothing else can be indexed by a string (wording of CPython 3.11 and
    later). *)
Definition getitem (v : value) (k : string) : res value :=
  match v with
  | VDict d =>
      match dict_get k d with
      | Some x => Ok x
      | None => Raise (mkExn KeyError (repr_key k))
      end
  | VList _ =>
      Raise (mkExn TypeError "list indices must be integers or slices, not str")
  | VStr _ =>
      Raise (mkExn TypeError "string indices must be integers, not 'str'")
  | _ =>
      Raise (mkExn TypeError
               ("'" ++ type_name v ++ "' object is not subscriptable"))
  end.

(** Running a generator expression [f(x) for x in xs] to its end: the first
    element on which [f] raises stops it. *)
Fixpoint generate {A B} (f : A -> res B) (xs : list A) : res (list B) :=
  match xs with
  | [] => Ok []
  | x :: rest =>
      y <~ f x ;;
      ys <~ generate f rest ;;
      Ok (y :: ys)
  end.

Definition decimal (n : nat) : string :=
  NilZero.string_of_uint (Nat.to_uint n).

(** The type check [str.join] makes on the collected items, from index [i]
    on. *)
Fixpoint expect_strs (i : nat) (items : list value) : res (list string) :=
  match items with
  | [] => Ok []
  | VStr s :: rest =>
      ss <~ expect_strs (S i) rest ;;
      Ok (s :: ss)
  | v :: _ =>
      Raise (mkExn TypeError
               ("sequence item " ++ decimal i ++ ": expected str instance, "
                ++ type_name v ++ " found"))
  end.

(** [sep.join(items)]: the items are collected first, then checked, then
    concatenated with [sep] between neighbours. *)
Definition str_join (sep : string) (items : res (list value)) : res string :=
  vs <~ items ;;
  ss <~ expect_strs 0 vs ;;
  Ok (String.concat sep ss).

(** Only atoms hash. *)
Definition hashable (v : value) : bool :=
  match v with
  | VList _ | VDict _ => false
  | _ => true
  end.

(** The number an atom compares as, if it is one ([True == 1]). *)
Definition numeric (v : value) : option Q :=
  match v with
  | VBool b => Some (inject_Z (if b then 1 else 0))
  | VInt z => Some (inject_Z z)
  | VFloat q => Some q
  | _ => None
  end.

(** [a == b] on atoms. *)
Definition py_eq (a b : value) : bool :=
  match a, b with
  | VNone, VNone => true
  | VStr s, VStr t => String.eqb s t
  | _, _ =>
      match numeric a, numeric b with
      | Some x, Some y => Qeq_bool x y
      | _, _ => false
      end
  end.

(** A set under construction: its members in the order they came in. *)
Definition set_add (v : value) (s : list value) : res (list value) :=
  if hashable v then
    if existsb (py_eq v) s then Ok s else Ok (s ++ [v])
  else
    Raise (mkExn TypeError ("unhashable type: '" ++ type_name v ++ "'")).

(** A set comprehension [{f(x) for x in xs}], from the members [s] already
    there. *)
Fixpoint set_comprehension {A} (f : A -> res value) (xs : list A)
    (s : list value) : res (list value) :=
  match xs with
  | [] => Ok s
  | x :: rest =>
      v <~ f x ;;
      s' <~ set_add v s ;;
      set_comprehension f rest s'
  end.

(** [l[i]] on a list. *)
Definition list_index {A} (l : list A) (i : nat) : res A :=
  match nth_error l i with
  | Some x => Ok x
  | None => Raise (mkExn IndexError "list index out of range")
  end.

(** ** Configuration *)

(** The two settings read from the environment at start-up. *)
Record Config : Type := mkConfig {
  VECTOR_STORE_URL : string;
  TOP_K : Z
}.

Definition default_config : Config :=
  {| VECTOR_STORE_URL := "http://127.0.0.1:8000/v1/retrieve"; TOP_K := 3 |}.

Definition GROQ_MODEL : string := "llama-3.3-70b-versatile".

(** The double nearest to 0.1. *)
Definition float_0_1 : Q := (3602879701896397 # 36028797018963968)%Q.

Definition LLM_TEMPERATURE : Q := float_0_1.

Definition SYSTEM_PROMPT : string :=
  "You are a Senior Financial Audit & Compliance Officer with deep expertise "
  ++ "in regulatory frameworks (Basel III/IV, SEC, GDPR, SEBI, FINRA). "
  ++ "Your role is to analyze provided regulatory context and answer compliance "
  ++ "questions with precision and professionalism." ++ nl ++ nl
  ++ "Guidelines:" ++ nl
  ++ "- Base all answers strictly on the provided context. Do not speculate." ++ nl
  ++ "- Bold key thresholds, percentages, and deadlines using **markdown**." ++ nl
  ++ "- If the context is insufficient to answer, state this clearly." ++ nl
  ++ "- Cite specific document sections or regulation numbers where visible." ++ nl
  ++ "- Flag any contradictions or ambiguities between source documents." ++ nl
  ++ "- Use formal, jurisdiction-appropriate language throughout.".

(** ** The two services *)

(** A response object, seen through the two methods the client calls. *)
Record Response : Type := mkResponse {
  raise_for_status : res unit;
  json : res value
}.

(** The part of a completion the client reads.  The content is a string,
    as the return annotation of [generate_compliance_response] has it. *)
Record ChatCompletionMessage : Type := mkCompletionMessage {
  message_content : string
}.

Record Choice : Type := mkChoice { message : ChatCompletionMessage }.

Record ChatCompletion : Type := mkCompletion { choices : list Choice }.

(** Everything the run of a query depends on outside the program text:
    - [requests_post url payload timeout] is what
      [requests.post(url, json=payload, timeout=timeout)] does: it returns a
      response or raises;
    - [chat_completions_create model temperature messages] is what
      [client.chat.completions.create(...)] does;
    - [py_str v] is [str(v)], the text an f-string puts for [{v}];
    - [set_iter s] is the order in which iterating a set yields the members
      that were inserted in the order [s]. *)
Record World : Type := mkWorld {
  requests_post : string -> value -> Z -> res Response;
  chat_completions_create :
    string -> Q -> list chat_message -> res ChatCompletion;
  py_str : value -> string;
  set_iter : list value -> list value
}.

(** Iterating a set yields each member once, in some order. *)
Definition set_iter_ok (w : World) : Prop :=
  forall s, Permutation (set_iter w s) s.

(** The [messages] argument of the completion request. *)
Definition prompt_messages (question context : string) : list chat_message :=
  [ mkMessage "system" SYSTEM_PROMPT;
    mkMessage "user"
      ("RETRIEVED CONTEXT:" ++ nl ++ context ++ nl ++ nl
       ++ "COMPLIANCE QUESTION: " ++ question) ].

(** ** The client *)

Section Client.

Variable cfg : Config.
Variable w : World.

Definition http_post (url : string) (payload : value) (timeout : Z)
    : M Response :=
  fun tr => (requests_post w url payload timeout,
             tr ++ [HttpPost url payload timeout]).

Definition llm_create (model : string) (temperature : Q)
    (messages : list chat_message) : M ChatCompletion :=
  fun tr => (chat_completions_create w model temperature messages,
             tr ++ [LlmCreate model temperature messages]).

(** The body of the [try] in [retrieve_context]. *)
Definition post_and_parse (payload : value) : M value :=
  response <- http_post (VECTOR_STORE_URL cfg) payload 10 ;;
  lift (raise_for_status response) ;;;
  results <- lift (json response) ;;
  ret results.

Definition retrieve_context (question : string) (top_k : Z)
    : M (list value) :=
  let payload := VDict [("query", VStr question); ("k", VInt top_k)] in
  try_except_else
    (post_and_parse payload)
    [ ([requests_ConnectionError],
       fun _ => raise (mkExn ConnectionError
                  ("Cannot reach VectorStoreServer at "
                   ++ VECTOR_STORE_URL cfg ++ ". "
                   ++ "Ensure main.py is running.")));
      ([requests_Timeout],
       fun _ => raise (mkExn ConnectionError
                  "VectorStoreServer request timed out after 10 seconds."));
      ([requests_HTTPError],
       fun e => raise (mkExn ValueError
                  ("VectorStoreServer returned an error: " ++ exc_str e))) ]
    (fun results =>
       (* [if not isinstance(results, list): raise ...], then
          [return results]: what is returned is a list *)
       match results with
       | VList chunks => ret chunks
       | _ => raise (mkExn ValueError
                  ("Unexpected response format from vector store: "
                   ++ py_str w results))
       end).

Definition build_context_string (chunks : list value) : res string :=
  str_join (nl ++ nl) (generate (fun chunk => getitem chunk "text") chunks).

Definition extract_sources (chunks : list value) : res (list value) :=
  s <~ set_comprehension
         (fun chunk =>
            metadata <~ getitem chunk "metadata" ;;
            getitem metadata "name")
         chunks [] ;;
  Ok (set_iter w s).

Definition generate_compliance_response (question context : string)
    : M string :=
  completion <- llm_create GROQ_MODEL LLM_TEMPERATURE
                  (prompt_messages question context) ;;
  choice <- lift (list_index (choices completion) 0) ;;
  ret (message_content (message choice)).

(** The result triple: the chunks or [None], the answer text, the
    sources. *)
Definition answer_triple : Type :=
  (option (list value) * string * list value)%type.

Definition get_compliance_answer (question : string) : M answer_triple :=
  try_except_else
    (retrieve_context question (TOP_K cfg))
    [ ([ConnectionError; ValueError],
       fun e =>
         emit (LogError ("Retrieval failed: " ++ exc_str e)) ;;;
         ret (None, exc_str e, [])) ]
    (fun chunks =>
       context <- lift (build_context_string chunks) ;;
       sources <- lift (extract_sources chunks) ;;
       try_except_else
         (generate_compliance_response question context)
         [ ([Exception],
            fun e =>
              emit (LogError ("LLM generation failed: " ++ exc_str e)) ;;;
              ret (Some chunks, ("LLM error: " ++ exc_str e)%string, sources)) ]
         (fun answer => ret (Some chunks, answer, sources))).

End Client.

(** ** Vocabulary of the properties *)

(** [sub] occurs somewhere in [s]. *)
Definition contains (sub s : string) : Prop :=
  exists before after : string, s = (before ++ sub ++ after)%string.

Definition total_length (texts : list string) : nat :=
  list_sum (map String.length texts).

Definition is_lf (a : ascii) : bool := Ascii.eqb a (ascii_of_nat 10).

Fixpoint no_newline (s : string) : bool :=
  match s with
  | EmptyString => true
  | String a rest => negb (is_lf a) && no_newline rest
  end.

(** [s.count(blank line)]: occurrences of two line feeds in a row, counted
    from the left without overlap. *)
Fixpoint count_blank (s : string) : nat :=
  match s with
  | EmptyString => 0
  | String a rest =>
      match rest with
      | EmptyString => 0
      | String b rest' =>
          if is_lf a && is_lf b then S (count_blank rest')
          else count_blank rest
      end
  end.

(** Put a character in front of the first piece. *)
Definition push_front (a : ascii) (pieces : list string) : list string :=
  match pieces with
  | [] => [String a EmptyString]
  | p :: ps => String a p :: ps
  end.

(** [s.split(blank line)]. *)
Fixpoint split_blank (s : string) : list string :=
  match s with
  | EmptyString => [EmptyString]
  | String a rest =>
      match rest with
      | EmptyString => [String a EmptyString]
      | String b rest' =>
          if is_lf a && is_lf b then EmptyString :: split_blank rest'
          else push_front a (split_blank rest)
      end
  end.

(** The texts, in order, with a blank line between neighbours and nowhere
    else. *)
Inductive blank_line_joined : list string -> string -> Prop :=
| joined_last t : blank_line_joined [t] t
| joined_more t t' ts s :
    blank_line_joined (t' :: ts) s ->
    blank_line_joined (t :: t' :: ts) (t ++ nl ++ nl ++ s)%string.

(** The chunk is an object whose [text] is the string [t]. *)
Definition has_text (chunk : value) (t : string) : Prop :=
  getitem chunk "text" = Ok (VStr t).

(** [chunk["metadata"]["name"]]. *)
Definition metadata_name (chunk : value) : res value :=
  metadata <~ getitem chunk "metadata" ;;
  getitem metadata "name".

(** The chunk's [metadata.name] is the string [n]. *)
Definition has_name (chunk : value) (n : string) : Prop :=
  metadata_name chunk = Ok (VStr n).

(** The shape the retrieval contract gives a chunk, as far as the pipeline
    reads it: a string [text] and a [metadata.name] that can go into a
    set. *)
Definition chunk_ok (chunk : value) : bool :=
  match getitem chunk "text", metadata_name chunk with
  | Ok (VStr _), Ok n => hashable n
  | _, _ => false
  end.


(** The exceptions of the guarded request that end up in one of the
    handlers, of [retrieve_context] or of the orchestrator. *)
Definition retrieval_error_handled (e : exn) : bool :=
  clause_matches
    [requests_ConnectionError; requests_Timeout; requests_HTTPError;
     ConnectionError; ValueError] e.


(** The body of the retrieval request. *)
Definition query_payload (question : string) (top_k : Z) : value :=
  VDict [("query", VStr question); ("k", VInt top_k)].

(** The outcome of the guarded request stays within what the client is
    written for: a body that is not a list, a list of chunks of the agreed
    shape, or an exception that some handler takes. *)
Definition retrieval_within_contract (r : res value) : Prop :=
  match r with
  | Ok (VList chunks) => forallb chunk_ok chunks = true
  | Ok _ => True
  | Raise e => retrieval_error_handled e = true
  end.

(** Whatever the completion call raises is an [Exception]. *)
Definition llm_raises_exceptions (w : World) : Prop :=
  forall model temperature messages e,
    chat_completions_create w model temperature messages = Raise e ->
    isinstance e Exception = true.

(** What [retrieve_context] raises when the guarded request raised [e]:
    the handlers are tried in the order they are written. *)
Definition reraised (cfg : Config) (e : exn) : exn :=
  if isinstance e requests_ConnectionError then
    mkExn ConnectionError
      ("Cannot reach VectorStoreServer at " ++ VECTOR_STORE_URL cfg ++ ". "
       ++ "Ensure main.py is running.")
  else if isinstance e requests_Timeout then
    mkExn ConnectionError
      "VectorStoreServer request timed out after 10 seconds."
  else if isinstance e requests_HTTPError then
    mkExn ValueError ("VectorStoreServer returned an error: " ++ exc_str e)
  else e.

Definition lower_ascii (a : ascii) : ascii :=
  let n := nat_of_ascii a in
  if (65 <=? n)%nat && (n <=? 90)%nat then ascii_of_nat (n + 32) else a.

Fixpoint lower (s : string) : string :=
  match s with
  | EmptyString => EmptyString
  | String a rest => String (lower_ascii a) (lower rest)
  end.

(** [sub in s]. *)
Definition occurs (sub s : string) : bool :=
  match index 0 sub s with
  | Some _ => true
  | None => false
  end.

(** The text speaks of a timeout, in whatever case and spelling. *)
Definition mentions_timeout (s : string) : bool :=
  let l := lower s in
  occurs "timed out" l || occurs "timeout" l || occurs "time out" l
  || occurs "time-out" l.

(** ** Sample worlds *)

(** A stand-in for [str] on the values met in the examples: exact on
    [None], booleans, integers and at a string; other values show their
    type name. *)
Definition sample_str (v : value) : string :=
  match v with
  | VNone => "None"
  | VBool true => "True"
  | VBool false => "False"
  | VInt z => NilZero.string_of_int (Z.to_int z)
  | VStr s => s
  | _ => "<" ++ type_name v ++ ">"
  end.

(** A world in which every request gets the same reply.  Sets iterate in
    insertion order. *)
Definition world_of (post : res Response) (llm : res ChatCompletion)
    : World :=
  {| requests_post := fun _ _ _ => post;
     chat_completions_create := fun _ _ _ => llm;
     py_str := sample_str;
     set_iter := fun s => s |}.

Definition completion_of (text : string) : ChatCompletion :=
  mkCompletion [mkChoice (mkCompletionMessage text)].

Definition response_of (body : value) : Response :=
  {| raise_for_status := Ok tt; json := Ok body |}.

Definition basel_question : string :=
  "What is the minimum capital adequacy ratio under Basel III?".

Definition basel_text : string :=
  "Banks must maintain a minimum CET1 ratio of 4.5%.".

Definition basel_chunk : value :=
  VDict [("text", VStr basel_text);
         ("dist", VFloat float_0_1);
         ("metadata", VDict [("name", VStr "basel_iii.pdf")])].

Definition basel_answer : string :=
  "The minimum CET1 ratio is **4.5%** (basel_iii.pdf).".

Definition world_basel : World :=
  world_of (Ok (response_of (VList [basel_chunk])))
           (Ok (completion_of basel_answer)).

(** The service answers with a list whose only element is an empty
    object. *)
Definition world_missing_text : World :=
  world_of (Ok (response_of (VList [VDict []])))
           (Ok (completion_of basel_answer)).

(** Connecting to the service takes longer than the timeout allows. *)
Definition connect_timeout : exn :=
  mkExn requests_ConnectTimeout
        "HTTPConnectionPool(host='127.0.0.1', port=8000): Max retries exceeded".

Definition world_connect_timeout : World :=
  world_of (Raise connect_timeout) (Ok (completion_of basel_answer)).

(** The service accepts the connection and then sends nothing in time. *)
Definition read_timeout : exn :=
  mkExn requests_ReadTimeout
        "HTTPConnectionPool(host='127.0.0.1', port=8000): Read timed out.".

Definition world_read_timeout : World :=
  world_of (Raise read_timeout) (Ok (completion_of basel_answer)).


(** The language-model call fails. *)
Definition llm_failure : exn :=
  mkExn (LibraryError "groq.APIConnectionError") "Connection error.".

Definition world_llm_down : World :=
  world_of (Ok (response_of (VList [basel_chunk]))) (Raise llm_failure).

(** Nothing matches the question. *)
Definition world_no_match : World :=
  world_of (Ok (response_of (VList [])))
           (Ok (completion_of "The context is insufficient to answer.")).

(** ** The display helpers and the interactive loop *)

(** Python strings are kept as their UTF-8 bytes.  A character starts at
    every byte that is not a continuation byte. *)
Definition is_continuation (a : ascii) : bool :=
  let n := nat_of_ascii a in (128 <=? n)%nat && (n <? 192)%nat.

(** [len(s)]: the number of characters. *)
Fixpoint char_count (s : string) : nat :=
  match s with
  | EmptyString => 0
  | String a rest =>
      if is_continuation a then char_count rest else S (char_count rest)
  end.

(** [s[:n]]: the first [n] characters. *)
Fixpoint take_chars (n : nat) (s : string) : string :=
  match s with
  | EmptyString => EmptyString
  | String a rest =>
      if is_continuation a then String a (take_chars n rest)
      else
        match n with
        | O => EmptyString
        | S k => String a (take_chars k rest)
        end
  end.

(** [s.replace(line feed, space)]. *)
Fixpoint replace_lf (s : string) : string :=
  match s with
  | EmptyString => EmptyString
  | String a rest =>
      String (if is_lf a then ascii_of_nat 32 else a) (replace_lf rest)
  end.

(** [text[:160].replace(line feed, space)] for a string. *)
Definition snippet (text : string) : string :=
  replace_lf (take_chars 160 text).

(** [s * n]. *)
Fixpoint repeat_str (s : string) (n : nat) : string :=
  match n with
  | O => EmptyString
  | S k => s ++ repeat_str s k
  end.

(** The characters [str.strip] removes are those [str.isspace] accepts.
    In one byte: tab to carriage return, the four separators 28 to 31 and
    the space. *)
Definition space1 (a : ascii) : bool :=
  let n := nat_of_ascii a in
  ((9 <=? n) && (n <=? 13) || (28 <=? n) && (n <=? 32))%nat.

(** In two bytes: U+0085 and U+00A0. *)
Definition space2 (a b : ascii) : bool :=
  ((nat_of_ascii a =? 194) &&
   ((nat_of_ascii b =? 133) || (nat_of_ascii b =? 160)))%nat.

(** In three bytes: U+1680, U+2000 to U+200A, U+2028, U+2029, U+202F,
    U+205F and U+3000. *)
Definition space3 (a b c : ascii) : bool :=
  let x := nat_of_ascii a in
  let y := nat_of_ascii b in
  let z := nat_of_ascii c in
  ((x =? 225) && (y =? 154) && (z =? 128)
   || (x =? 226) && (y =? 128)
      && ((128 <=? z) && (z <=? 138) || (z =? 168) || (z =? 169)
          || (z =? 175))
   || (x =? 226) && (y =? 129) && (z =? 159)
   || (x =? 227) && (y =? 128) && (z =? 128))%nat.

(** Dropping the white space at the head of a byte sequence; [two] and
    [three] recognise the characters of two and three bytes in the order
    the bytes come. *)
Fixpoint drop_spaces (two : ascii -> ascii -> bool)
    (three : ascii -> ascii -> ascii -> bool) (s : string) : string :=
  match s with
  | EmptyString => EmptyString
  | String a rest =>
      if space1 a then drop_spaces two three rest
      else
        match rest with
        | EmptyString => s
        | String b rest' =>
            if two a b then drop_spaces two three rest'
            else
              match rest' with
              | EmptyString => s
              | String c rest'' =>
                  if three a b c then drop_spaces two three rest'' else s
              end
        end
  end.

Fixpoint rev_onto (s acc : string) : string :=
  match s with
  | EmptyString => acc
  | String a rest => rev_onto rest (String a acc)
  end.

Definition string_rev (s : string) : string := rev_onto s EmptyString.

Definition lstrip (s : string) : string := drop_spaces space2 space3 s.

(** From the end the bytes of a character come last byte first. *)
Definition rstrip (s : string) : string :=
  string_rev
    (drop_spaces (fun b a => space2 a b) (fun c b a => space3 a b c)
       (string_rev s)).

(** [s.strip()]. *)
Definition strip (s : string) : string := rstrip (lstrip s).

(** [query.lower() in {exit, quit}].  Lowering the ASCII letters is all the
    test needs: no other character lowers to one of the letters of the two
    words. *)
Definition is_exit_command (query : string) : bool :=
  existsb (String.eqb (lower query)) ["exit"; "quit"].

(** What the user sees and what the services get, in the order it
    happens. *)
Inductive console_event : Type :=
| Printed (text : string)
| Prompted (text : string)
| Service (ev : event).

(** A computation at the console. *)
Definition IO (A : Type) : Type :=
  list console_event -> res A * list console_event.

Definition io_ret {A} (a : A) : IO A := fun tr => (Ok a, tr).

Definition io_bind {A B} (m : IO A) (k : A -> IO B) : IO B :=
  fun tr =>
    match m tr with
    | (Ok a, tr') => k a tr'
    | (Raise e, tr') => (Raise e, tr')
    end.

Definition io_lift {A} (r : res A) : IO A := fun tr => (r, tr).

(** [print(text)]. *)
Definition print (text : string) : IO unit :=
  fun tr => (Ok tt, tr ++ [Printed text]).

(** A computation of the client, run from the console: what it does to the
    services goes into the console's trace. *)
Definition call {A} (m : M A) : IO A :=
  fun tr => let (r, evs) := m [] in (r, tr ++ map Service evs).

Declare Scope io_scope.
Delimit Scope io_scope with io.
Notation "x <- m ;; k" := (io_bind m (fun x => k))
  (at level 61, m at next level, right associativity) : io_scope.
Notation "m ;;; k" := (io_bind m (fun _ => k))
  (at level 61, right associativity) : io_scope.

(** A [for] loop over a list with its index, [enumerate(xs, start)]. *)
Fixpoint for_each {A} (body : nat -> A -> IO unit) (start : nat)
    (xs : list A) : IO unit :=
  match xs with
  | [] => io_ret tt
  | x :: rest =>
      io_bind (body start x) (fun _ => for_each body (S start) rest)
  end.

(** The one place where floating point is computed.  For a number [d]
    (a bool, an int or a float), [similarity_4f d] is the text that
    [round(1 - d, 4)] shows under the format [.4f], or the [OverflowError]
    of an int too large for a float. *)
Record Numerics : Type := mkNumerics {
  similarity_4f : value -> res string
}.

(** [1 - d]: only numbers can be subtracted. *)
Definition one_minus (d : value) : res value :=
  match numeric d with
  | Some _ => Ok d
  | None =>
      Raise (mkExn TypeError
               ("unsupported operand type(s) for -: 'int' and '"
                ++ type_name d ++ "'"))
  end.

(** [text[:160].replace(...)] for any value (wording of CPython 3.11). *)
Definition snippet_of (text : value) : res string :=
  match text with
  | VStr s => Ok (snippet s)
  | VList _ =>
      Raise (mkExn (LibraryError "AttributeError")
               "'list' object has no attribute 'replace'")
  | VDict _ => Raise (mkExn TypeError "unhashable type: 'slice'")
  | _ =>
      Raise (mkExn TypeError
               ("'" ++ type_name text ++ "' object is not subscriptable"))
  end.

Section Console.

Variable cfg : Config.
Variable num : Numerics.

(** The body of the loop of [display_semantic_results], for the chunk at
    [rank]. *)
Definition show_chunk (w : World) (rank : nat) (chunk : value) : IO unit :=
  (dist <- io_lift (getitem chunk "dist") ;;
   similarity <- io_lift (one_minus dist) ;;
   metadata <- io_lift (getitem chunk "metadata") ;;
   source_name <- io_lift (getitem metadata "name") ;;
   text <- io_lift (getitem chunk "text") ;;
   snip <- io_lift (snippet_of text) ;;
   shown <- io_lift (similarity_4f num similarity) ;;
   print ("  Rank " ++ decimal rank ++ " | Similarity: " ++ shown
          ++ " | Source: " ++ py_str w source_name) ;;;
   print ("  Snippet: " ++ snip ++ "...") ;;;
   print EmptyString)%io.

Definition display_semantic_results (w : World) (chunks : list value)
    : IO unit :=
  (print (nl ++ "🧠 TOP-K SEMANTIC SEARCH RESULTS (Evidence)") ;;;
   print (repeat_str "─" 50) ;;;
   for_each (show_chunk w) 1 chunks)%io.

Definition display_citations (w : World) (sources : list value) : IO unit :=
  (print "📚 CITATIONS" ;;;
   print (repeat_str "─" 50) ;;;
   for_each
     (fun _ source => print ("  ✅ " ++ py_str w source))
     0 sources)%io.

(** What happens at one prompt: a line is typed or the user interrupts.
    When nothing is left to read, the input is at its end. *)
Inductive keyboard : Type :=
| Line (s : string)
| CtrlC.

(** One turn of the session: what is typed, and the services as they are
    at that moment. *)
Record turn : Type := mkTurn { typed : keyboard; services : World }.

Definition goodbye : string := "Shutting down compliance agent. Goodbye!".

(** What a round shows once [get_compliance_answer] has returned: the
    error when the chunks are [None], else the report with its evidence
    and citations. *)
Definition report (w : World) (result : answer_triple) : IO unit :=
  match result with
  | (None, answer, _) => print (nl ++ "❌ Error: " ++ answer)
  | (Some chunks, answer, sources) =>
      (print (nl ++ "📋 [2/3] COMPLIANCE REPORT") ;;;
       print (repeat_str "─" 50) ;;;
       print answer ;;;
       print (nl ++ "[3/3] EVIDENCE & CITATIONS") ;;;
       display_semantic_results w chunks ;;;
       display_citations w sources)%io
  end.

(** The statements of a round after a question has been read. *)
Definition query_round (w : World) (query : string) : IO unit :=
  (print (nl ++ "🔍 [1/3] Querying Pathway vector store...") ;;;
   result <- call (get_compliance_answer cfg w query) ;;
   report w result)%io.

(** The [while True] loop of [run_demo]: each round reads once, so the
    rounds follow the turns; [continue] and the end of the body are the
    loop on the turns left, [break] is its end. *)
Fixpoint demo_loop (turns : list turn) : IO unit :=
  (print (repeat_str "─" 60) ;;;
   fun tr =>
     let tr := tr ++ [Prompted "🤖 Query: "] in
     match turns with
     | [] => print (nl ++ goodbye) tr
     | t :: rest =>
         match typed t with
         | CtrlC => print (nl ++ goodbye) tr
         | Line s =>
             let query := strip s in
             if String.eqb query EmptyString then demo_loop rest tr
             else if is_exit_command query then print goodbye tr
             else (query_round (services t) query ;;; demo_loop rest) tr
         end
     end)%io.

Definition run_demo (turns : list turn) : IO unit :=
  (print (nl ++ repeat_str "=" 60) ;;;
   print "  🏦 PATHWAY + GROQ: REAL-TIME COMPLIANCE AGENT" ;;;
   print (repeat_str "=" 60) ;;;
   print "Connected to live Google Drive. Monitoring regulatory changes." ;;;
   print ("Type 'exit' or 'quit' to shut down." ++ nl) ;;;
   demo_loop turns)%io.

End Console.

(** ** Vocabulary of the further properties *)

Definition is_llm_call (ev : event) : bool :=
  match ev with
  | LlmCreate _ _ _ => true
  | _ => false
  end.


(** The ways a query can run, with the result and the events of each: the
    request of [retrieve_context] is always there, a completion request
    and a log entry may follow. *)
Inductive run_shape (cfg : Config) (w : World) (question : string)
    : res answer_triple -> list event -> Prop :=
| shape_retrieval_reported err :
    fst (retrieve_context cfg w question (TOP_K cfg) []) = Raise err ->
    clause_matches [ConnectionError; ValueError] err = true ->
    run_shape cfg w question
      (Ok (None, exc_str err, []))
      [HttpPost (VECTOR_STORE_URL cfg)
         (query_payload question (TOP_K cfg)) 10;
       LogError ("Retrieval failed: " ++ exc_str err)]
| shape_retrieval_escapes err :
    fst (retrieve_context cfg w question (TOP_K cfg) []) = Raise err ->
    clause_matches [ConnectionError; ValueError] err = false ->
    run_shape cfg w question
      (Raise err)
      [HttpPost (VECTOR_STORE_URL cfg)
         (query_payload question (TOP_K cfg)) 10]
| shape_chunks_escape chunks e :
    fst (retrieve_context cfg w question (TOP_K cfg) []) = Ok chunks ->
    (build_context_string chunks = Raise e
     \/ (exists context, build_context_string chunks = Ok context)
        /\ extract_sources w chunks = Raise e) ->
    run_shape cfg w question
      (Raise e)
      [HttpPost (VECTOR_STORE_URL cfg)
         (query_payload question (TOP_K cfg)) 10]
| shape_answered chunks context sources completion choice :
    fst (retrieve_context cfg w question (TOP_K cfg) []) = Ok chunks ->
    build_context_string chunks = Ok context ->
    extract_sources w chunks = Ok sources ->
    chat_completions_create w GROQ_MODEL LLM_TEMPERATURE
      (prompt_messages question context) = Ok completion ->
    list_index (choices completion) 0 = Ok choice ->
    run_shape cfg w question
      (Ok (Some chunks, message_content (message choice), sources))
      [HttpPost (VECTOR_STORE_URL cfg)
         (query_payload question (TOP_K cfg)) 10;
       LlmCreate GROQ_MODEL LLM_TEMPERATURE
         (prompt_messages question context)]
| shape_generation_reported chunks context sources e :
    fst (retrieve_context cfg w question (TOP_K cfg) []) = Ok chunks ->
    build_context_string chunks = Ok context ->
    extract_sources w chunks = Ok sources ->
    fst (generate_compliance_response w question context []) = Raise e ->
    isinstance e Exception = true ->
    run_shape cfg w question
      (Ok (Some chunks, ("LLM error: " ++ exc_str e)%string, sources))
      [HttpPost (VECTOR_STORE_URL cfg)
         (query_payload question (TOP_K cfg)) 10;
       LlmCreate GROQ_MODEL LLM_TEMPERATURE
         (prompt_messages question context);
       LogError ("LLM generation failed: " ++ exc_str e)]
| shape_generation_escapes chunks context sources e :
    fst (retrieve_context cfg w question (TOP_K cfg) []) = Ok chunks ->
    build_context_string chunks = Ok context ->
    extract_sources w chunks = Ok sources ->
    fst (generate_compliance_response w question context []) = Raise e ->
    isinstance e Exception = false ->
    run_shape cfg w question
      (Raise e)
      [HttpPost (VECTOR_STORE_URL cfg)
         (query_payload question (TOP_K cfg)) 10;
       LlmCreate GROQ_MODEL LLM_TEMPERATURE
         (prompt_messages question context)].

(** The chunk's [metadata.name] is there and can go into a set. *)
Definition name_ok (chunk : value) : Prop :=
  exists n, metadata_name chunk = Ok n /\ hashable n = true.


(** A computation at the console only adds to the trace, and what it adds
    and returns does not depend on what is there. *)
Definition framed {A} (m : IO A) : Prop :=
  forall tr, m tr = (fst (m []), tr ++ snd (m [])).

(** A computation at the console that leaves the services alone. *)
Definition quiet {A} (m : IO A) : Prop :=
  forall ev, ~ In (Service ev) (snd (m [])).

(** How a round of the loop ends. *)
Inductive control : Type :=
| Continue
| Stop
| Crash (e : exn).

(** What is shown before each read. *)
Definition round_head : list console_event :=
  [Printed (repeat_str "─" 60); Prompted "🤖 Query: "].

(** One round of the loop, by what is typed: how it ends and what it
    shows and does. *)
Definition turn_step (cfg : Config) (num : Numerics) (t : turn)
    : control * list console_event :=
  match typed t with
  | CtrlC => (Stop, round_head ++ [Printed (nl ++ goodbye)])
  | Line s =>
      let query := strip s in
      if String.eqb query EmptyString then (Continue, round_head)
      else if is_exit_command query then
        (Stop, round_head ++ [Printed goodbye])
      else
        match query_round cfg num (services t) query [] with
        | (Ok _, evs) => (Continue, round_head ++ evs)
        | (Raise e, evs) => (Crash e, round_head ++ evs)
        end
  end.

(** The question of a turn, when the turn asks one. *)
Definition question_of (t : turn) : option string :=
  match typed t with
  | CtrlC => None
  | Line s =>
      let query := strip s in
      if String.eqb query EmptyString then None
      else if is_exit_command query then None
      else Some query
  end.



(** A session: a blank line, a question the service does not answer in
    time, the word that ends the session, and a line that is never read. *)
Definition sample_session : list turn :=
  [mkTurn (Line "   ") world_basel;
   mkTurn (Line basel_question) world_read_timeout;
   mkTurn (Line "  EXIT ") world_basel;
   mkTurn (Line basel_question) world_basel].

(** The completion call is interrupted from the keyboard. *)
Definition world_interrupted : World :=
  world_of (Ok (response_of (VList [basel_chunk])))
           (Raise (mkExn KeyboardInterrupt EmptyString)).

(** The service sends the client round in circles. *)
Definition redirect_loop : exn :=
  mkExn requests_TooManyRedirects "Exceeded 30 redirects.".

Definition world_redirect_loop : World :=
  world_of (Raise redirect_loop) (Ok (completion_of basel_answer)).

(** The service answers with an error page. *)
Definition server_error : exn :=
  mkExn requests_HTTPError "503 Server Error: Service Unavailable".

Definition world_server_error : World :=
  world_of (Ok {| raise_for_status := Raise server_error; json := Ok VNone |})
           (Ok (completion_of basel_answer)).

(** The body is no JSON at all. *)
Definition undecodable : exn :=
  mkExn requests_JSONDecodeError "Expecting value: line 1 column 1 (char 0)".

Definition world_undecodable : World :=
  world_of (Ok {| raise_for_status := Ok tt; json := Raise undecodable |})
           (Ok (completion_of basel_answer)).

(** The completion comes without a choice. *)
Definition world_no_choice : World :=
  world_of (Ok (response_of (VList [basel_chunk]))) (Ok (mkCompletion [])).

(** A chunk as the orchestrator needs it, without the distance the display
    reads. *)
Definition chunk_without_dist : value :=
  VDict [("text", VStr "Tier 1 capital: 6%.");
         ("metadata", VDict [("name", VStr "basel_iii.pdf")])].


(** A stand-in for the float formatting of the examples. *)
Definition sample_numerics : Numerics :=
  {| similarity_4f := fun _ => Ok "0.9000" |}.

(** * Properties *)

(** ** Strings joined by blank lines *)

Section BlankLines.

Lemma length_append (s t : string) :
  String.length (s ++ t) = String.length s + String.length t.
Proof. induction s as [|a s IH]; simpl; [reflexivity | now rewrite IH]. Qed.


Lemma concat_cons2 (sep t t' : string) (ts : list string) :
  String.concat sep (t :: t' :: ts)
  = (t ++ sep ++ String.concat sep (t' :: ts))%string.
Proof. reflexivity. Qed.

Lemma concat_joined (texts : list string) :
  texts <> [] ->
  blank_line_joined texts (String.concat (nl ++ nl) texts).
Proof.
  induction texts as [|t [|t' ts] IH]; intros Hne.
  - contradiction.
  - apply joined_last.
  - rewrite concat_cons2.
    change ((nl ++ nl) ++ ?s)%string with (nl ++ nl ++ s)%string.
    apply joined_more, IH. discriminate.
Qed.

Lemma joined_length (texts : list string) (s : string) :
  blank_line_joined texts s ->
  String.length s = total_length texts + 2 * (List.length texts - 1).
Proof.
  unfold total_length.
  induction 1 as [t | t t' ts s _ IH]; simpl.
  - lia.
  - rewrite length_append. simpl. rewrite IH. simpl. lia.
Qed.

Lemma count_blank_cons (a b : ascii) (r : string) :
  count_blank (String a (String b r))
  = if is_lf a && is_lf b then S (count_blank r)
    else count_blank (String b r).
Proof. reflexivity. Qed.

Lemma split_blank_cons (a b : ascii) (r : string) :
  split_blank (String a (String b r))
  = if is_lf a && is_lf b then EmptyString :: split_blank r
    else push_front a (split_blank (String b r)).
Proof. reflexivity. Qed.

Lemma count_blank_text (t : string) :
  no_newline t = true -> count_blank t = 0.
Proof.
  induction t as [|a t IH]; [reflexivity |].
  intros H. simpl in H. apply andb_true_iff in H as [Ha Ht].
  apply negb_true_iff in Ha.
  destruct t as [|b t']; [reflexivity |].
  rewrite count_blank_cons, Ha. apply IH, Ht.
Qed.

Lemma count_blank_step (t s : string) :
  no_newline t = true ->
  count_blank (t ++ nl ++ nl ++ s) = S (count_blank s).
Proof.
  induction t as [|a t IH]; intros H; [reflexivity |].
  simpl in H. apply andb_true_iff in H as [Ha Ht].
  apply negb_true_iff in Ha. specialize (IH Ht).
  unfold nl in *.
  destruct t as [|b t'];
    cbn [append] in *; rewrite count_blank_cons, Ha; exact IH.
Qed.

Lemma split_blank_text (t : string) :
  no_newline t = true -> split_blank t = [t].
Proof.
  induction t as [|a t IH]; [reflexivity |].
  intros H. simpl in H. apply andb_true_iff in H as [Ha Ht].
  apply negb_true_iff in Ha.
  destruct t as [|b t']; [reflexivity |].
  rewrite split_blank_cons, Ha, (IH Ht). reflexivity.
Qed.

Lemma split_blank_step (t s : string) :
  no_newline t = true ->
  split_blank (t ++ nl ++ nl ++ s) = t :: split_blank s.
Proof.
  induction t as [|a t IH]; intros H; [reflexivity |].
  simpl in H. apply andb_true_iff in H as [Ha Ht].
  apply negb_true_iff in Ha. specialize (IH Ht).
  unfold nl in *.
  destruct t as [|b t'];
    cbn [append] in *; rewrite split_blank_cons, Ha; cbn [andb];
    rewrite IH; reflexivity.
Qed.

Lemma joined_count (texts : list string) (s : string) :
  blank_line_joined texts s ->
  forallb no_newline texts = true ->
  count_blank s = List.length texts - 1.
Proof.
  induction 1 as [t | t t' ts s _ IH]; intros Hnl.
  - simpl in Hnl. apply andb_true_iff in Hnl as [Ht _].
    now rewrite count_blank_text.
  - change (forallb no_newline (t :: t' :: ts))
      with (no_newline t && forallb no_newline (t' :: ts)) in Hnl.
    apply andb_true_iff in Hnl as [Ht Hts].
    rewrite (count_blank_step _ _ Ht), (IH Hts). simpl. lia.
Qed.

Lemma joined_split (texts : list string) (s : string) :
  blank_line_joined texts s ->
  forallb no_newline texts = true ->
  split_blank s = texts.
Proof.
  induction 1 as [t | t t' ts s _ IH]; intros Hnl.
  - simpl in Hnl. apply andb_true_iff in Hnl as [Ht _].
    now apply split_blank_text.
  - change (forallb no_newline (t :: t' :: ts))
      with (no_newline t && forallb no_newline (t' :: ts)) in Hnl.
    apply andb_true_iff in Hnl as [Ht Hts].
    rewrite (split_blank_step _ _ Ht), (IH Hts). reflexivity.
Qed.

End BlankLines.

(** ** Context assembly *)

Lemma generate_texts (chunks : list value) (texts : list string) :
  Forall2 has_text chunks texts ->
  generate (fun chunk => getitem chunk "text") chunks = Ok (map VStr texts).
Proof.
  induction 1 as [|c t cs ts Hc _ IH]; simpl; [reflexivity |].
  unfold has_text in Hc. rewrite Hc. simpl. rewrite IH. reflexivity.
Qed.

Lemma expect_strs_strings (texts : list string) (i : nat) :
  expect_strs i (map VStr texts) = Ok texts.
Proof.
  revert i. induction texts as [|t ts IH]; intros i; simpl; [reflexivity |].
  rewrite IH. reflexivity.
Qed.

Lemma build_context_string_texts (chunks : list value) (texts : list string) :
  Forall2 has_text chunks texts ->
  build_context_string chunks = Ok (String.concat (nl ++ nl) texts).
Proof.
  intros H. unfold build_context_string, str_join.
  rewrite (generate_texts _ _ H). simpl.
  rewrite expect_strs_strings. reflexivity.
Qed.

(** C4.  [build_context_string] of no chunks is the empty string; of [n > 0]
    chunks with texts [texts] it is those texts in input order with a blank
    line between neighbours and nowhere else: [n - 1] separators, so the
    length is that of the texts plus two characters per separator, and
    when no text holds a line feed the separators can be counted and split
    at in the result. *)
Theorem build_context_string_blank_line_join :
  build_context_string [] = Ok EmptyString /\
  forall (chunks : list value) (texts : list string),
    Forall2 has_text chunks texts ->
    chunks <> [] ->
    exists s,
      build_context_string chunks = Ok s /\
      blank_line_joined texts s /\
      String.length s = total_length texts + 2 * (List.length chunks - 1) /\
      (forallb no_newline texts = true ->
       count_blank s = List.length chunks - 1 /\ split_blank s = texts).
Proof.
  split; [reflexivity |].
  intros chunks texts H Hne.
  assert (Hlen : List.length chunks = List.length texts)
    by (eapply Forall2_length; eassumption).
  assert (Hts : texts <> [])
    by (destruct H; [contradiction | discriminate]).
  exists (String.concat (nl ++ nl) texts).
  pose proof (concat_joined texts Hts) as Hj.
  split; [now apply build_context_string_texts |].
  split; [exact Hj |].
  rewrite Hlen. split; [now apply joined_length |].
  intros Hnl. split; [now apply joined_count | now apply joined_split].
Qed.

(** ** Source extraction *)

Lemma py_eq_str (n : string) (v : value) :
  py_eq (VStr n) v = true <-> v = VStr n.
Proof.
  destruct v; simpl; split; intros H; try discriminate.
  - apply String.eqb_eq in H. now subst.
  - injection H as ->. apply String.eqb_refl.
Qed.

Lemma member_str (n : string) (s : list value) :
  existsb (py_eq (VStr n)) s = true <-> In (VStr n) s.
Proof.
  rewrite existsb_exists. split.
  - intros [v [Hin Heq]]. apply py_eq_str in Heq. now subst.
  - intros Hin. exists (VStr n). split; [exact Hin | now apply py_eq_str].
Qed.

(** Adding a string to a set of distinct members. *)
Lemma set_add_str (n : string) (s : list value) :
  exists s',
    set_add (VStr n) s = Ok s' /\
    (NoDup s -> NoDup s') /\
    (forall v, In v s' <-> In v s \/ v = VStr n) /\
    List.length s' <= S (List.length s).
Proof.
  unfold set_add. simpl hashable. cbv iota.
  destruct (existsb (py_eq (VStr n)) s) eqn:Hmem.
  - apply member_str in Hmem. exists s. repeat split; auto.
    + intros [H | ->]; assumption.
  - exists (s ++ [VStr n]). repeat split.
    + intros Hnd. apply NoDup_app; [exact Hnd | repeat constructor; intros [] |].
      intros v Hv [<- | []].
      apply member_str in Hv. congruence.
    + intros Hv. apply in_app_or in Hv as [H | [<- | []]]; auto.
    + intros [H | ->]; apply in_or_app; [left | right; left]; auto.
    + rewrite length_app. simpl. lia.
Qed.

Lemma set_comprehension_names (chunks : list value) (names : list string) :
  Forall2 has_name chunks names ->
  forall s0,
  exists s,
    set_comprehension
      (fun chunk =>
         metadata <~ getitem chunk "metadata" ;; getitem metadata "name")
      chunks s0 = Ok s /\
    (NoDup s0 -> NoDup s) /\
    (forall v, In v s <-> In v s0 \/ exists n, v = VStr n /\ In n names) /\
    List.length s <= List.length s0 + List.length chunks.
Proof.
  induction 1 as [|c n cs ns Hc _ IH]; intros s0.
  - exists s0. simpl. repeat split; auto.
    + intros [H | [n [_ []]]]. exact H.
    + lia.
  - destruct (set_add_str n s0) as [s1 [Hadd [Hnd1 [Hin1 Hlen1]]]].
    destruct (IH s1) as [s [Hrun [Hnd [Hin Hlen]]]].
    exists s. simpl.
    unfold has_name, metadata_name in Hc. rewrite Hc. simpl.
    rewrite Hadd. simpl. repeat split.
    + exact Hrun.
    + auto.
    + intros Hv. apply Hin in Hv as [Hv | [m [-> Hm]]].
      * apply Hin1 in Hv as [Hv | ->]; [now left |].
        right. exists n. split; [reflexivity | now left].
      * right. exists m. split; [reflexivity | now right].
    + intros [Hv | [m [-> [<- | Hm]]]]; apply Hin.
      * left. apply Hin1. now left.
      * left. apply Hin1. now right.
      * right. exists m. now split.
    + lia.
Qed.

(** C5.  For chunks that each carry a [metadata.name] (a string, as the
    declared result type has it), [extract_sources] returns a list without
    duplicates, no longer than the chunk list, with as many entries as
    there are distinct names, and holding exactly those names. *)
Theorem extract_sources_distinct_names :
  forall (w : World) (chunks : list value) (names : list string),
    set_iter_ok w ->
    Forall2 has_name chunks names ->
    exists sources,
      extract_sources w chunks = Ok sources /\
      NoDup sources /\
      List.length sources <= List.length chunks /\
      List.length sources = List.length (nodup string_dec names) /\
      (forall v, In v sources <-> exists n, v = VStr n /\ In n names).
Proof.
  intros w chunks names Hiter H.
  destruct (set_comprehension_names chunks names H [])
    as [s [Hrun [Hnd [Hin Hlen]]]].
  specialize (Hnd (NoDup_nil _)).
  pose proof (Hiter s) as Hperm.
  assert (Hmem : forall v,
             In v (set_iter w s) <-> exists n, v = VStr n /\ In n names).
  { intros v. split.
    - intros Hv. apply (Permutation_in _ Hperm) in Hv.
      apply Hin in Hv as [[] | Hv]. exact Hv.
    - intros Hv. apply (Permutation_in _ (Permutation_sym Hperm)).
      apply Hin. now right. }
  assert (Hnd' : NoDup (set_iter w s))
    by (eapply Permutation_NoDup; [apply Permutation_sym|]; eassumption).
  exists (set_iter w s). unfold extract_sources. rewrite Hrun. simpl.
  repeat split.
  - exact Hnd'.
  - rewrite (Permutation_length Hperm). simpl in Hlen. exact Hlen.
  - rewrite <- (length_map VStr (nodup string_dec names)).
    apply Permutation_length, NoDup_Permutation.
    + exact Hnd'.
    + apply Finite.Injective_map_NoDup; [| apply NoDup_nodup].
      intros a b Hab. now injection Hab.
    + intros v. rewrite Hmem, in_map_iff. split.
      * intros [n [-> Hn]]. exists n. split; [reflexivity |].
        now apply nodup_In.
      * intros [n [<- Hn]]. exists n. split; [reflexivity |].
        now apply nodup_In in Hn.
  - apply Hmem.
  - apply Hmem.
Qed.

(** ** Exception classes *)

Lemma every_class_is_a_base_exception (c : exc_class) :
  issubclass c BaseException = true.
Proof. destruct c; reflexivity. Qed.

Lemma connect_timeout_is_both :
  issubclass requests_ConnectTimeout requests_ConnectionError = true /\
  issubclass requests_ConnectTimeout requests_Timeout = true /\
  issubclass requests_ReadTimeout requests_ConnectionError = false.
Proof. repeat split. Qed.

(** ** Retrieval *)

Section Retrieval.

Variable cfg : Config.
Variable w : World.


Lemma retrieve_context_list (question : string) (top_k : Z)
    (tr tr1 : list event) (chunks : list value) :
  post_and_parse cfg w (query_payload question top_k) tr
  = (Ok (VList chunks), tr1) ->
  retrieve_context cfg w question top_k tr = (Ok chunks, tr1).
Proof.
  intros H. unfold retrieve_context, try_except_else.
  fold (query_payload question top_k). rewrite H. reflexivity.
Qed.

Lemma retrieve_context_not_list (question : string) (top_k : Z)
    (tr tr1 : list event) (v : value) :
  post_and_parse cfg w (query_payload question top_k) tr = (Ok v, tr1) ->
  is_list v = false ->
  retrieve_context cfg w question top_k tr
  = (Raise (mkExn ValueError
              ("Unexpected response format from vector store: "
               ++ py_str w v)), tr1).
Proof.
  intros H Hv. unfold retrieve_context, try_except_else.
  fold (query_payload question top_k). rewrite H.
  destruct v; try reflexivity. discriminate.
Qed.

Lemma retrieve_context_raise (question : string) (top_k : Z)
    (tr tr1 : list event) (e : exn) :
  post_and_parse cfg w (query_payload question top_k) tr = (Raise e, tr1) ->
  retrieve_context cfg w question top_k tr = (Raise (reraised cfg e), tr1).
Proof.
  intros H. unfold retrieve_context, try_except_else.
  fold (query_payload question top_k). rewrite H.
  unfold reraised, dispatch, clause_matches, existsb.
  rewrite !orb_false_r.
  destruct (isinstance e requests_ConnectionError); [reflexivity |].
  destruct (isinstance e requests_Timeout); [reflexivity |].
  destruct (isinstance e requests_HTTPError); reflexivity.
Qed.

(** A handled exception of the request reaches the orchestrator as a
    [ConnectionError] or a [ValueError]. *)
Lemma reraised_caught (e : exn) :
  retrieval_error_handled e = true ->
  clause_matches [ConnectionError; ValueError] (reraised cfg e) = true.
Proof.
  unfold retrieval_error_handled, reraised.
  unfold clause_matches at 1. unfold existsb. rewrite orb_false_r.
  destruct (isinstance e requests_ConnectionError); [reflexivity |].
  destruct (isinstance e requests_Timeout); [reflexivity |].
  destruct (isinstance e requests_HTTPError); [reflexivity |].
  simpl orb. unfold clause_matches, existsb. now rewrite orb_false_r.
Qed.

End Retrieval.

(** ** Answer generation *)

Section Generation.

Variable w : World.

Lemma generate_raises (question context : string) (tr : list event)
    (e : exn) :
  chat_completions_create w GROQ_MODEL LLM_TEMPERATURE
    (prompt_messages question context) = Raise e ->
  generate_compliance_response w question context tr
  = (Raise e,
     tr ++ [LlmCreate GROQ_MODEL LLM_TEMPERATURE
              (prompt_messages question context)]).
Proof.
  intros H. unfold generate_compliance_response, bind, llm_create.
  rewrite H. reflexivity.
Qed.

Lemma generate_returns (question context : string) (tr : list event)
    (completion : ChatCompletion) (choice : Choice) :
  chat_completions_create w GROQ_MODEL LLM_TEMPERATURE
    (prompt_messages question context) = Ok completion ->
  list_index (choices completion) 0 = Ok choice ->
  generate_compliance_response w question context tr
  = (Ok (message_content (message choice)),
     tr ++ [LlmCreate GROQ_MODEL LLM_TEMPERATURE
              (prompt_messages question context)]).
Proof.
  intros H Hc. unfold generate_compliance_response, bind, llm_create, lift.
  rewrite H, Hc. reflexivity.
Qed.

(** The stage raises only what the completion call raised, or
    [IndexError] when the completion has no choice. *)
Lemma generate_raise_inv (question context : string) (tr tr' : list event)
    (e : exn) :
  generate_compliance_response w question context tr = (Raise e, tr') ->
  chat_completions_create w GROQ_MODEL LLM_TEMPERATURE
    (prompt_messages question context) = Raise e
  \/ exc_type e = IndexError.
Proof.
  unfold generate_compliance_response, bind, llm_create, lift, list_index.
  destruct (chat_completions_create w _ _ _) as [completion | e'].
  - destruct (nth_error (choices completion) 0); unfold ret; intros H.
    + discriminate.
    + right. now injection H as <- _.
  - intros H. left. now injection H as <- _.
Qed.

End Generation.

(** ** The orchestrator *)

Section Orchestrator.

Variable cfg : Config.
Variable w : World.

Lemma answer_retrieval_caught (question : string) (tr tr1 : list event)
    (e : exn) :
  retrieve_context cfg w question (TOP_K cfg) tr = (Raise e, tr1) ->
  clause_matches [ConnectionError; ValueError] e = true ->
  get_compliance_answer cfg w question tr
  = (Ok (None, exc_str e, []),
     tr1 ++ [LogError ("Retrieval failed: " ++ exc_str e)]).
Proof.
  intros H Hc. unfold get_compliance_answer, try_except_else at 1.
  rewrite H. unfold dispatch. rewrite Hc. reflexivity.
Qed.

Lemma answer_retrieval_uncaught (question : string) (tr tr1 : list event)
    (e : exn) :
  retrieve_context cfg w question (TOP_K cfg) tr = (Raise e, tr1) ->
  clause_matches [ConnectionError; ValueError] e = false ->
  get_compliance_answer cfg w question tr = (Raise e, tr1).
Proof.
  intros H Hc. unfold get_compliance_answer, try_except_else at 1.
  rewrite H. unfold dispatch. rewrite Hc. reflexivity.
Qed.

Lemma answer_context_raises (question : string) (tr tr1 : list event)
    (chunks : list value) (e : exn) :
  retrieve_context cfg w question (TOP_K cfg) tr = (Ok chunks, tr1) ->
  build_context_string chunks = Raise e ->
  get_compliance_answer cfg w question tr = (Raise e, tr1).
Proof.
  intros H Hb. unfold get_compliance_answer, try_except_else at 1.
  rewrite H. unfold bind, lift. rewrite Hb. reflexivity.
Qed.

Lemma answer_generated (question : string) (tr tr1 tr2 : list event)
    (chunks : list value) (context answer : string) (sources : list value) :
  retrieve_context cfg w question (TOP_K cfg) tr = (Ok chunks, tr1) ->
  build_context_string chunks = Ok context ->
  extract_sources w chunks = Ok sources ->
  generate_compliance_response w question context tr1 = (Ok answer, tr2) ->
  get_compliance_answer cfg w question tr
  = (Ok (Some chunks, answer, sources), tr2).
Proof.
  intros H Hb Hs Hg. unfold get_compliance_answer, try_except_else at 1.
  rewrite H. unfold bind, lift. rewrite Hb, Hs.
  unfold try_except_else. rewrite Hg. reflexivity.
Qed.

Lemma answer_generation_caught (question : string) (tr tr1 tr2 : list event)
    (chunks : list value) (context : string) (sources : list value)
    (e : exn) :
  retrieve_context cfg w question (TOP_K cfg) tr = (Ok chunks, tr1) ->
  build_context_string chunks = Ok context ->
  extract_sources w chunks = Ok sources ->
  generate_compliance_response w question context tr1 = (Raise e, tr2) ->
  isinstance e Exception = true ->
  get_compliance_answer cfg w question tr
  = (Ok (Some chunks, ("LLM error: " ++ exc_str e)%string, sources),
     tr2 ++ [LogError ("LLM generation failed: " ++ exc_str e)]).
Proof.
  intros H Hb Hs Hg He. unfold get_compliance_answer, try_except_else at 1.
  rewrite H. unfold bind, lift. rewrite Hb, Hs.
  unfold try_except_else. rewrite Hg.
  unfold dispatch, clause_matches, existsb. rewrite He. reflexivity.
Qed.

End Orchestrator.

(** ** Chunks of the agreed shape *)

Lemma chunk_ok_text (chunk : value) :
  chunk_ok chunk = true -> exists t, has_text chunk t.
Proof.
  unfold chunk_ok, has_text.
  destruct (getitem chunk "text") as [[] |]; try discriminate.
  intros _. eexists. reflexivity.
Qed.

Lemma chunk_ok_name (chunk : value) :
  chunk_ok chunk = true ->
  exists n, metadata_name chunk = Ok n /\ hashable n = true.
Proof.
  unfold chunk_ok.
  destruct (getitem chunk "text") as [[] |]; try discriminate.
  destruct (metadata_name chunk) as [n |]; try discriminate.
  intros H. exists n. now split.
Qed.

Lemma chunks_ok_context (chunks : list value) :
  forallb chunk_ok chunks = true ->
  exists context, build_context_string chunks = Ok context.
Proof.
  intros H.
  assert (Htexts : exists texts, Forall2 has_text chunks texts).
  { induction chunks as [|c cs IH].
    - exists []. constructor.
    - simpl in H. apply andb_true_iff in H as [Hc Hcs].
      destruct (chunk_ok_text c Hc) as [t Ht].
      destruct (IH Hcs) as [ts Hts].
      exists (t :: ts). now constructor. }
  destruct Htexts as [texts Htexts].
  eexists. apply (build_context_string_texts _ _ Htexts).
Qed.

Lemma chunks_ok_sources (w : World) (chunks : list value) :
  forallb chunk_ok chunks = true ->
  exists sources, extract_sources w chunks = Ok sources.
Proof.
  intros H. unfold extract_sources.
  assert (Hset : forall s0, exists s,
             set_comprehension
               (fun chunk =>
                  metadata <~ getitem chunk "metadata" ;;
                  getitem metadata "name") chunks s0 = Ok s).
  { induction chunks as [|c cs IH]; intros s0.
    - exists s0. reflexivity.
    - simpl in H. apply andb_true_iff in H as [Hc Hcs].
      destruct (chunk_ok_name c Hc) as [n [Hn Hh]].
      unfold metadata_name in Hn. simpl. rewrite Hn. simpl.
      unfold set_add. rewrite Hh.
      destruct (existsb (py_eq n) s0); simpl; apply IH, Hcs. }
  destruct (Hset []) as [s Hs]. rewrite Hs. simpl. eexists. reflexivity.
Qed.

(** ** The claims about the orchestrator *)

(** C1, as amended.  For every question, [get_compliance_answer] returns a
    triple and lets no exception through whenever the guarded retrieval
    request returns a body that is not a list, returns a list of chunks
    that each carry a string [text] and a hashable [metadata.name], or
    raises an exception that one of the handlers takes, and whatever the
    completion call raises is an [Exception]. *)
Theorem get_compliance_answer_total_within_contract :
  forall (cfg : Config) (w : World) (question : string) (tr : list event),
    retrieval_within_contract
      (fst (post_and_parse cfg w (query_payload question (TOP_K cfg)) tr)) ->
    llm_raises_exceptions w ->
    exists chunks answer sources,
      fst (get_compliance_answer cfg w question tr)
      = Ok (chunks, answer, sources).
Proof.
  intros cfg w question tr Hr Hllm.
  destruct (post_and_parse cfg w (query_payload question (TOP_K cfg)) tr)
    as [[v | e] tr1] eqn:Hpost; simpl in Hr.
  - destruct (is_list v) eqn:Hv.
    + destruct v as [| | | | | chunks |]; try discriminate.
      pose proof (retrieve_context_list _ _ _ _ _ _ _ Hpost) as Hret.
      destruct (chunks_ok_context chunks Hr) as [context Hctx].
      destruct (chunks_ok_sources w chunks Hr) as [sources Hsrc].
      destruct (generate_compliance_response w question context tr1)
        as [[answer | e] tr2] eqn:Hgen.
      * exists (Some chunks), answer, sources.
        now rewrite (answer_generated _ _ _ _ _ _ _ _ _ _ Hret Hctx Hsrc Hgen).
      * assert (He : isinstance e Exception = true).
        { destruct (generate_raise_inv _ _ _ _ _ _ Hgen) as [Hraise | Hidx].
          - eapply Hllm, Hraise.
          - unfold isinstance. rewrite Hidx. reflexivity. }
        exists (Some chunks), ("LLM error: " ++ exc_str e)%string, sources.
        now rewrite (answer_generation_caught _ _ _ _ _ _ _ _ _ _
                       Hret Hctx Hsrc Hgen He).
    + pose proof (retrieve_context_not_list _ _ _ _ _ _ _ Hpost Hv) as Hret.
      eexists None, _, [].
      now rewrite (answer_retrieval_caught _ _ _ _ _ _ Hret eq_refl).
  - pose proof (retrieve_context_raise _ _ _ _ _ _ _ Hpost) as Hret.
    eexists None, _, [].
    now rewrite (answer_retrieval_caught _ _ _ _ _ _ Hret
                   (reraised_caught cfg e Hr)).
Qed.

Lemma get_compliance_answer_total_within_contract_witness :
  exists chunks answer sources,
    fst (get_compliance_answer default_config world_llm_down
           basel_question [])
    = Ok (chunks, answer, sources).
Proof.
  apply (get_compliance_answer_total_within_contract
           default_config world_llm_down basel_question []).
  - reflexivity.
  - intros model temperature messages e H.
    injection H as <-. reflexivity.
Defined.

(** C1, as the claim has it, fails: a list whose element lacks [text] makes
    the context assembly raise [KeyError], and nothing catches it. *)
Lemma malformed_chunk_escapes :
  fst (get_compliance_answer default_config world_missing_text
         basel_question [])
  = Raise (mkExn KeyError "'text'")
  /\ ~ (exists triple,
          fst (get_compliance_answer default_config world_missing_text
                 basel_question [])
          = Ok triple).
Proof.
  split; [reflexivity |].
  intros [triple H]. vm_compute in H. discriminate.
Qed.



(** C3.  When retrieval succeeds and the answer generation, called on the
    context built from the retrieved chunks, fails with an [Exception],
    [get_compliance_answer] returns the retrieved chunks unchanged, an
    answer that starts with the marker "LLM error", and the sources
    extracted from those chunks. *)
Theorem generation_failure_keeps_evidence :
  forall (cfg : Config) (w : World) (question : string)
         (tr tr1 tr2 : list event) (chunks : list value) (context : string)
         (sources : list value) (e : exn),
    retrieve_context cfg w question (TOP_K cfg) tr = (Ok chunks, tr1) ->
    build_context_string chunks = Ok context ->
    extract_sources w chunks = Ok sources ->
    generate_compliance_response w question context tr1 = (Raise e, tr2) ->
    isinstance e Exception = true ->
    exists answer,
      fst (get_compliance_answer cfg w question tr)
      = Ok (Some chunks, answer, sources) /\
      prefix "LLM error" answer = true /\
      answer = ("LLM error: " ++ exc_str e)%string.
Proof.
  intros cfg w question tr tr1 tr2 chunks context sources e
         Hret Hctx Hsrc Hgen He.
  exists ("LLM error: " ++ exc_str e)%string.
  rewrite (answer_generation_caught _ _ _ _ _ _ _ _ _ _
             Hret Hctx Hsrc Hgen He).
  repeat split.
Qed.

Lemma generation_failure_keeps_evidence_witness :
  exists answer,
    fst (get_compliance_answer default_config world_llm_down
           basel_question [])
    = Ok (Some [basel_chunk], answer, [VStr "basel_iii.pdf"]) /\
    prefix "LLM error" answer = true /\
    answer = ("LLM error: " ++ exc_str llm_failure)%string.
Proof.
  eapply (generation_failure_keeps_evidence
            default_config world_llm_down basel_question []);
    reflexivity.
Defined.

(** C4 at two chunks. *)
Lemma build_context_string_blank_line_join_witness :
  exists s,
    build_context_string
      [basel_chunk; VDict [("text", VStr "Tier 1 capital: 6%.")]] = Ok s /\
    blank_line_joined [basel_text; "Tier 1 capital: 6%."] s /\
    String.length s
    = total_length [basel_text; "Tier 1 capital: 6%."] + 2 * (2 - 1) /\
    (forallb no_newline [basel_text; "Tier 1 capital: 6%."] = true ->
     count_blank s = 2 - 1 /\
     split_blank s = [basel_text; "Tier 1 capital: 6%."]).
Proof.
  apply (proj2 build_context_string_blank_line_join
           [basel_chunk; VDict [("text", VStr "Tier 1 capital: 6%.")]]
           [basel_text; "Tier 1 capital: 6%."]).
  - repeat constructor.
  - discriminate.
Defined.

(** C5 at three chunks from two documents. *)
Lemma extract_sources_distinct_names_witness :
  exists sources,
    extract_sources world_basel
      [basel_chunk;
       VDict [("metadata", VDict [("name", VStr "sebi_lodr.pdf")])];
       basel_chunk] = Ok sources /\
    NoDup sources /\
    List.length sources <= 3 /\
    List.length sources
    = List.length
        (nodup string_dec ["basel_iii.pdf"; "sebi_lodr.pdf"; "basel_iii.pdf"]) /\
    (forall v,
        In v sources <->
        exists n,
          v = VStr n /\
          In n ["basel_iii.pdf"; "sebi_lodr.pdf"; "basel_iii.pdf"]).
Proof.
  apply (extract_sources_distinct_names world_basel
           [basel_chunk;
            VDict [("metadata", VDict [("name", VStr "sebi_lodr.pdf")])];
            basel_chunk]
           ["basel_iii.pdf"; "sebi_lodr.pdf"; "basel_iii.pdf"]).
  - intros s. apply Permutation_refl.
  - repeat constructor.
Defined.

(** C6 fails when it is the connection that times out: [requests] raises
    [ConnectTimeout], which is a [ConnectionError] as well as a [Timeout];
    the handler for [ConnectionError] is written first and takes it, so
    the answer text is the one for an unreachable service and says nothing
    of a timeout. *)
Theorem connect_timeout_reported_as_unreachable :
  isinstance connect_timeout requests_Timeout = true /\
  fst (get_compliance_answer default_config world_connect_timeout
         basel_question [])
  = Ok (None,
        ("Cannot reach VectorStoreServer at http://127.0.0.1:8000/v1/retrieve."
         ++ " Ensure main.py is running.")%string,
        []) /\
  mentions_timeout
    ("Cannot reach VectorStoreServer at http://127.0.0.1:8000/v1/retrieve."
     ++ " Ensure main.py is running.") = false.
Proof. repeat split. Qed.

(** A timeout that is not a connection error (a read timeout, for one)
    does get the timeout message. *)
Lemma plain_timeout_reported (cfg : Config) (w : World) (question : string)
    (tr tr1 : list event) (e : exn) :
  post_and_parse cfg w (query_payload question (TOP_K cfg)) tr
  = (Raise e, tr1) ->
  isinstance e requests_Timeout = true ->
  isinstance e requests_ConnectionError = false ->
  fst (get_compliance_answer cfg w question tr)
  = Ok (None, "VectorStoreServer request timed out after 10 seconds.", []).
Proof.
  intros Hpost Ht Hc.
  pose proof (retrieve_context_raise _ _ _ _ _ _ _ Hpost) as Hret.
  unfold reraised in Hret. rewrite Hc, Ht in Hret.
  now rewrite (answer_retrieval_caught _ _ _ _ _ _ Hret eq_refl).
Qed.

Example read_timeout_reported :
  fst (get_compliance_answer default_config world_read_timeout
         basel_question [])
  = Ok (None, "VectorStoreServer request timed out after 10 seconds.", [])
  /\ mentions_timeout
       "VectorStoreServer request timed out after 10 seconds." = true.
Proof. split; reflexivity. Qed.



(** C8.  If retrieval returns the one chunk of [basel_iii.pdf] and the
    generation returns a fixed string, [get_compliance_answer] returns that
    one-chunk list, the fixed string and the one source name. *)
Theorem basel_scenario :
  forall (cfg : Config) (w : World) (question fixed : string)
         (tr tr1 tr2 : list event),
    set_iter_ok w ->
    retrieve_context cfg w question (TOP_K cfg) tr
    = (Ok [basel_chunk], tr1) ->
    generate_compliance_response w question basel_text tr1
    = (Ok fixed, tr2) ->
    fst (get_compliance_answer cfg w question tr)
    = Ok (Some [basel_chunk], fixed, [VStr "basel_iii.pdf"]).
Proof.
  intros cfg w question fixed tr tr1 tr2 Hiter Hret Hgen.
  assert (Hsrc : extract_sources w [basel_chunk] = Ok [VStr "basel_iii.pdf"]).
  { unfold extract_sources. simpl. f_equal.
    apply Permutation_length_1_inv, Permutation_sym, Hiter. }
  now rewrite (answer_generated _ _ _ _ _ _ _ _ _ _ Hret eq_refl Hsrc Hgen).
Qed.

Lemma basel_scenario_witness :
  fst (get_compliance_answer default_config world_basel basel_question [])
  = Ok (Some [basel_chunk], basel_answer, [VStr "basel_iii.pdf"]).
Proof.
  eapply (basel_scenario default_config world_basel basel_question
            basel_answer []).
  - intros s. apply Permutation_refl.
  - reflexivity.
  - reflexivity.
Defined.

(** C9, as the claim has it, fails: the generation stage has no handler,
    and an error of the completion call leaves it as an exception. *)
Lemma generation_stage_raises :
  fst (generate_compliance_response world_llm_down basel_question
         basel_text [])
  = Raise llm_failure
  /\ ~ (exists answer,
          fst (generate_compliance_response world_llm_down basel_question
                 basel_text [])
          = Ok answer).
Proof.
  split; [reflexivity |].
  intros [answer H]. vm_compute in H. discriminate.
Qed.

(** C9, as amended.  An error of the completion call leaves
    [generate_compliance_response] unchanged, as an exception; it is the
    orchestrator that catches it, when it is an [Exception], and turns it
    into the answer "LLM error: " followed by the error's text, next to the
    chunks and the sources. *)
Theorem llm_error_caught_by_orchestrator :
  forall (cfg : Config) (w : World) (question : string)
         (tr tr1 : list event) (chunks : list value) (context : string)
         (sources : list value) (e : exn),
    retrieve_context cfg w question (TOP_K cfg) tr = (Ok chunks, tr1) ->
    build_context_string chunks = Ok context ->
    extract_sources w chunks = Ok sources ->
    chat_completions_create w GROQ_MODEL LLM_TEMPERATURE
      (prompt_messages question context) = Raise e ->
    isinstance e Exception = true ->
    fst (generate_compliance_response w question context tr1) = Raise e /\
    fst (get_compliance_answer cfg w question tr)
    = Ok (Some chunks, ("LLM error: " ++ exc_str e)%string, sources).
Proof.
  intros cfg w question tr tr1 chunks context sources e
         Hret Hctx Hsrc Hllm He.
  pose proof (generate_raises w question context tr1 e Hllm) as Hgen.
  split; [now rewrite Hgen |].
  now rewrite (answer_generation_caught _ _ _ _ _ _ _ _ _ _
                 Hret Hctx Hsrc Hgen He).
Qed.

Lemma llm_error_caught_by_orchestrator_witness :
  fst (generate_compliance_response world_llm_down basel_question
         basel_text
         [HttpPost (VECTOR_STORE_URL default_config)
            (query_payload basel_question (TOP_K default_config)) 10])
  = Raise llm_failure /\
  fst (get_compliance_answer default_config world_llm_down basel_question [])
  = Ok (Some [basel_chunk], ("LLM error: " ++ exc_str llm_failure)%string,
        [VStr "basel_iii.pdf"]).
Proof.
  apply (llm_error_caught_by_orchestrator
           default_config world_llm_down basel_question []);
    reflexivity.
Defined.

(** C10.  When retrieval succeeds with no chunk at all, the orchestrator
    goes on: it asks for a completion with the empty context and returns
    the empty list (not [None]), the generated answer and no source. *)
Theorem empty_retrieval_is_success :
  forall (cfg : Config) (w : World) (question : string)
         (tr tr1 : list event) (completion : ChatCompletion)
         (choice : Choice),
    set_iter_ok w ->
    retrieve_context cfg w question (TOP_K cfg) tr = (Ok [], tr1) ->
    chat_completions_create w GROQ_MODEL LLM_TEMPERATURE
      (prompt_messages question EmptyString) = Ok completion ->
    list_index (choices completion) 0 = Ok choice ->
    build_context_string [] = Ok EmptyString /\
    exists triple,
      get_compliance_answer cfg w question tr
      = (Ok triple,
         tr1 ++ [LlmCreate GROQ_MODEL LLM_TEMPERATURE
                   (prompt_messages question EmptyString)]) /\
      triple = (Some [], message_content (message choice), []) /\
      fst (fst triple) <> None.
Proof.
  intros cfg w question tr tr1 completion choice Hiter Hret Hllm Hchoice.
  assert (Hsrc : extract_sources w [] = Ok []).
  { unfold extract_sources. simpl. f_equal.
    apply Permutation_nil, Permutation_sym, Hiter. }
  split; [reflexivity |].
  exists (Some [], message_content (message choice), []).
  split; [| split; [reflexivity | discriminate]].
  apply (answer_generated _ _ _ _ _ _ _ _ _ _ Hret eq_refl Hsrc).
  now apply generate_returns with (completion := completion).
Qed.

Lemma empty_retrieval_is_success_witness :
  build_context_string [] = Ok EmptyString /\
  exists triple,
    get_compliance_answer default_config world_no_match basel_question []
    = (Ok triple,
       [HttpPost (VECTOR_STORE_URL default_config)
          (query_payload basel_question (TOP_K default_config)) 10]
       ++ [LlmCreate GROQ_MODEL LLM_TEMPERATURE
             (prompt_messages basel_question EmptyString)]) /\
    triple
    = (Some [],
       message_content
         (message (mkChoice (mkCompletionMessage
                               "The context is insufficient to answer."))),
       []) /\
    fst (fst triple) <> None.
Proof.
  apply (empty_retrieval_is_success default_config world_no_match
           basel_question []
           [HttpPost (VECTOR_STORE_URL default_config)
              (query_payload basel_question (TOP_K default_config)) 10]
           (completion_of "The context is insufficient to answer.")
           (mkChoice (mkCompletionMessage
                        "The context is insufficient to answer."))).
  - intros s. apply Permutation_refl.
  - reflexivity.
  - reflexivity.
  - reflexivity.
Defined.

(** ** Worked runs *)

Example context_of_two_chunks :
  build_context_string
    [VDict [("text", VStr "a")]; VDict [("text", VStr "b")]]
  = Ok ("a" ++ nl ++ nl ++ "b")%string.
Proof. reflexivity. Qed.

Example text_that_is_no_string :
  build_context_string [basel_chunk; VDict [("text", VInt 3)]]
  = Raise (mkExn TypeError
             "sequence item 1: expected str instance, int found").
Proof. reflexivity. Qed.

Example name_that_does_not_hash :
  extract_sources world_basel
    [VDict [("metadata", VDict [("name", VList [])])]]
  = Raise (mkExn TypeError "unhashable type: 'list'").
Proof. reflexivity. Qed.

Example equal_numbers_are_one_member :
  extract_sources world_basel
    [VDict [("metadata", VDict [("name", VInt 1)])];
     VDict [("metadata", VDict [("name", VBool true)])];
     VDict [("metadata", VDict [("name", VStr "1")])]]
  = Ok [VInt 1; VStr "1"].
Proof. reflexivity. Qed.

(** An error status: the message of the [HTTPError] is passed on. *)
Example error_status_reported :
  fst (get_compliance_answer default_config
         (world_of
            (Ok {| raise_for_status :=
                     Raise (mkExn requests_HTTPError
                              "503 Server Error: Service Unavailable");
                   json := Ok VNone |})
            (Ok (completion_of basel_answer)))
         basel_question [])
  = Ok (None,
        "VectorStoreServer returned an error: 503 Server Error: Service Unavailable",
        []).
Proof. reflexivity. Qed.

(** A body that is no JSON: [requests]' [JSONDecodeError] is a
    [ValueError], which the orchestrator takes as it is. *)
Example undecodable_body_reported :
  fst (get_compliance_answer default_config
         (world_of
            (Ok {| raise_for_status := Ok tt;
                   json := Raise (mkExn requests_JSONDecodeError
                                    "Expecting value: line 1 column 1 (char 0)") |})
            (Ok (completion_of basel_answer)))
         basel_question [])
  = Ok (None, "Expecting value: line 1 column 1 (char 0)", []).
Proof. reflexivity. Qed.

(** An exception of the request that no handler names goes through both
    functions. *)
Example redirect_loop_escapes :
  fst (get_compliance_answer default_config
         (world_of
            (Raise (mkExn requests_TooManyRedirects "Exceeded 30 redirects."))
            (Ok (completion_of basel_answer)))
         basel_question [])
  = Raise (mkExn requests_TooManyRedirects "Exceeded 30 redirects.").
Proof. reflexivity. Qed.

(** A completion without any choice: the [IndexError] is an [Exception]
    and becomes the answer text. *)
Example completion_without_choice :
  fst (get_compliance_answer default_config
         (world_of (Ok (response_of (VList [basel_chunk])))
                   (Ok (mkCompletion [])))
         basel_question [])
  = Ok (Some [basel_chunk], "LLM error: list index out of range",
        [VStr "basel_iii.pdf"]).
Proof. reflexivity. Qed.

(** * Further properties *)

(** ** What a query does to the outside *)

Section Effects.

Variable cfg : Config.
Variable w : World.

Lemma post_and_parse_frame (payload : value) (tr : list event) :
  post_and_parse cfg w payload tr
  = (fst (post_and_parse cfg w payload []),
     tr ++ [HttpPost (VECTOR_STORE_URL cfg) payload 10]).
Proof.
  unfold post_and_parse, bind, http_post, lift, ret.
  destruct (requests_post w _ _ _) as [response | e]; [| reflexivity].
  destruct (raise_for_status response); [| reflexivity].
  destruct (json response); reflexivity.
Qed.

Lemma retrieve_context_frame (question : string) (top_k : Z)
    (tr : list event) :
  retrieve_context cfg w question top_k tr
  = (fst (retrieve_context cfg w question top_k []),
     tr ++ [HttpPost (VECTOR_STORE_URL cfg)
              (query_payload question top_k) 10]).
Proof.
  unfold retrieve_context, try_except_else.
  fold (query_payload question top_k).
  rewrite (post_and_parse_frame _ tr), (post_and_parse_frame _ []).
  destruct (fst (post_and_parse cfg w (query_payload question top_k) []))
    as [v | e]; simpl.
  - destruct v; reflexivity.
  - unfold clause_matches, existsb.
    repeat match goal with
           | |- context [isinstance e ?c] => destruct (isinstance e c)
           end; reflexivity.
Qed.

Lemma generate_frame (question context : string) (tr : list event) :
  generate_compliance_response w question context tr
  = (fst (generate_compliance_response w question context []),
     tr ++ [LlmCreate GROQ_MODEL LLM_TEMPERATURE
              (prompt_messages question context)]).
Proof.
  unfold generate_compliance_response, bind, llm_create, lift, ret.
  destruct (chat_completions_create w _ _ _) as [completion | e];
    [| reflexivity].
  destruct (list_index (choices completion) 0); reflexivity.
Qed.

Lemma generate_ok_inv (question context answer : string) :
  fst (generate_compliance_response w question context []) = Ok answer ->
  exists completion choice,
    chat_completions_create w GROQ_MODEL LLM_TEMPERATURE
      (prompt_messages question context) = Ok completion /\
    list_index (choices completion) 0 = Ok choice /\
    answer = message_content (message choice).
Proof.
  unfold generate_compliance_response, bind, llm_create, lift, ret.
  destruct (chat_completions_create w GROQ_MODEL LLM_TEMPERATURE
              (prompt_messages question context))
    as [completion | e] eqn:Hllm; [| discriminate].
  destruct (list_index (choices completion) 0) as [choice | e] eqn:Hchoice;
    [| discriminate].
  simpl. intros H. injection H as <-.
  exists completion, choice. repeat split. exact Hchoice.
Qed.

Lemma answer_sources_raise (question : string) (tr tr1 : list event)
    (chunks : list value) (context : string) (e : exn) :
  retrieve_context cfg w question (TOP_K cfg) tr = (Ok chunks, tr1) ->
  build_context_string chunks = Ok context ->
  extract_sources w chunks = Raise e ->
  get_compliance_answer cfg w question tr = (Raise e, tr1).
Proof.
  intros H Hb Hs. unfold get_compliance_answer, try_except_else at 1.
  rewrite H. unfold bind, lift. rewrite Hb, Hs. reflexivity.
Qed.

Lemma answer_generation_uncaught (question : string)
    (tr tr1 tr2 : list event) (chunks : list value) (context : string)
    (sources : list value) (e : exn) :
  retrieve_context cfg w question (TOP_K cfg) tr = (Ok chunks, tr1) ->
  build_context_string chunks = Ok context ->
  extract_sources w chunks = Ok sources ->
  generate_compliance_response w question context tr1 = (Raise e, tr2) ->
  isinstance e Exception = false ->
  get_compliance_answer cfg w question tr = (Raise e, tr2).
Proof.
  intros H Hb Hs Hg He. unfold get_compliance_answer, try_except_else at 1.
  rewrite H. unfold bind, lift. rewrite Hb, Hs.
  unfold try_except_else. rewrite Hg.
  unfold dispatch, clause_matches, existsb. rewrite He. reflexivity.
Qed.

(** Every run of a query has one of the six shapes. *)
Lemma get_compliance_answer_shape (question : string) (tr : list event) :
  exists r events,
    get_compliance_answer cfg w question tr = (r, tr ++ events) /\
    run_shape cfg w question r events.
Proof.
  pose proof (retrieve_context_frame question (TOP_K cfg) tr)
    as Hret.
  destruct (fst (retrieve_context cfg w question (TOP_K cfg) []))
    as [chunks | err] eqn:Hr.
  - destruct (build_context_string chunks) as [context | e] eqn:Hctx.
    + destruct (extract_sources w chunks) as [sources | e] eqn:Hsrc.
      * pose proof (generate_frame question context
                      (tr ++ [HttpPost (VECTOR_STORE_URL cfg)
                                (query_payload question (TOP_K cfg)) 10]))
          as Hgen.
        destruct (fst (generate_compliance_response w question context []))
          as [answer | e] eqn:Hg.
        -- destruct (generate_ok_inv _ _ _ Hg)
             as [completion [choice [Hllm [Hchoice ->]]]].
           do 2 eexists. split.
           ++ rewrite (answer_generated _ _ _ _ _ _ _ _ _ _
                         Hret Hctx Hsrc Hgen).
              now rewrite <- app_assoc.
           ++ eapply shape_answered; eassumption.
        -- destruct (isinstance e Exception) eqn:He.
           ++ do 2 eexists. split.
              ** rewrite (answer_generation_caught _ _ _ _ _ _ _ _ _ _
                            Hret Hctx Hsrc Hgen He).
                 now rewrite <- !app_assoc.
              ** eapply shape_generation_reported; eassumption.
           ++ do 2 eexists. split.
              ** rewrite (answer_generation_uncaught _ _ _ _ _ _ _ _
                            Hret Hctx Hsrc Hgen He).
                 now rewrite <- app_assoc.
              ** eapply shape_generation_escapes; eassumption.
      * do 2 eexists. split.
        -- now rewrite (answer_sources_raise _ _ _ _ _ _ Hret Hctx Hsrc).
        -- eapply shape_chunks_escape; [eassumption |].
           right. split; [now exists context | assumption].
    + do 2 eexists. split.
      * now rewrite (answer_context_raises _ _ _ _ _ _ _ Hret Hctx).
      * eapply shape_chunks_escape; [eassumption | now left].
  - destruct (clause_matches [ConnectionError; ValueError] err) eqn:Hc.
    + do 2 eexists. split.
      * rewrite (answer_retrieval_caught _ _ _ _ _ _ Hret Hc).
        now rewrite <- app_assoc.
      * now apply shape_retrieval_reported.
    + do 2 eexists. split.
      * now rewrite (answer_retrieval_uncaught _ _ _ _ _ _ Hret Hc).
      * now apply shape_retrieval_escapes.
Qed.


End Effects.

(** ** When the context or the sources cannot be built *)

Lemma getitem_raises (v : value) (k : string) (e : exn) :
  getitem v k = Raise e ->
  exc_type e = KeyError \/ exc_type e = TypeError.
Proof.
  unfold getitem. destruct v; try (intros H; injection H as <-; now right).
  destruct (dict_get k d); [discriminate |].
  intros H. injection H as <-. now left.
Qed.

Lemma generate_text_inv (chunks : list value) (items : list value) :
  generate (fun chunk => getitem chunk "text") chunks = Ok items ->
  Forall2 (fun chunk item => getitem chunk "text" = Ok item) chunks items.
Proof.
  revert items. induction chunks as [|c cs IH]; intros items; simpl.
  - intros H. injection H as <-. constructor.
  - destruct (getitem c "text") as [item |] eqn:Hc; [| discriminate].
    simpl. destruct (generate _ cs) as [rest |]; [| discriminate].
    simpl. intros H. injection H as <-. constructor; auto.
Qed.

Lemma generate_text_raises (chunks : list value) (e : exn) :
  generate (fun chunk => getitem chunk "text") chunks = Raise e ->
  exc_type e = KeyError \/ exc_type e = TypeError.
Proof.
  induction chunks as [|c cs IH]; simpl; [discriminate |].
  destruct (getitem c "text") as [item |] eqn:Hc; simpl.
  - destruct (generate _ cs) as [rest |]; simpl; [discriminate |].
    intros H. injection H as <-. now apply IH.
  - intros H. injection H as <-. eapply getitem_raises, Hc.
Qed.

Lemma expect_strs_inv (items : list value) (i : nat) (ss : list string) :
  expect_strs i items = Ok ss -> items = map VStr ss.
Proof.
  revert i ss. induction items as [|v vs IH]; intros i ss; simpl.
  - intros H. now injection H as <-.
  - destruct v; try discriminate.
    destruct (expect_strs (S i) vs) as [rest |] eqn:Hrest; [| discriminate].
    simpl. intros H. injection H as <-. simpl. f_equal. eapply IH, Hrest.
Qed.

Lemma expect_strs_raises (items : list value) (i : nat) (e : exn) :
  expect_strs i items = Raise e -> exc_type e = TypeError.
Proof.
  revert i. induction items as [|v vs IH]; intros i; simpl; [discriminate |].
  destruct v; try (intros H; now injection H as <-).
  destruct (expect_strs (S i) vs) eqn:Hrest; simpl; [discriminate |].
  intros H. injection H as <-. eapply IH, Hrest.
Qed.

Lemma build_context_string_raises (chunks : list value) (e : exn) :
  build_context_string chunks = Raise e ->
  exc_type e = KeyError \/ exc_type e = TypeError.
Proof.
  unfold build_context_string, str_join.
  destruct (generate _ chunks) as [items |] eqn:Hg; simpl.
  - destruct (expect_strs 0 items) eqn:He; simpl; [discriminate |].
    intros H. injection H as <-. right. eapply expect_strs_raises, He.
  - intros H. injection H as <-. eapply generate_text_raises, Hg.
Qed.

Lemma build_context_string_ok_inv (chunks : list value) (s : string) :
  build_context_string chunks = Ok s ->
  exists texts, Forall2 has_text chunks texts.
Proof.
  intros Hs. unfold build_context_string, str_join in Hs.
  destruct (generate _ chunks) as [items |] eqn:Hg; [| discriminate].
  simpl in Hs.
  destruct (expect_strs 0 items) as [texts |] eqn:He; [| discriminate].
  apply expect_strs_inv in He. subst items.
  apply generate_text_inv in Hg. exists texts.
  clear Hs. remember (map VStr texts) as items eqn:Hi.
  revert texts Hi. induction Hg as [|c v cs vs Hc _ IH]; intros texts Hi.
  - destruct texts; [constructor | discriminate].
  - destruct texts as [|t ts]; [discriminate |].
    injection Hi as -> ->. constructor; [exact Hc | now apply IH].
Qed.

(** X2.  [build_context_string] succeeds exactly when every chunk carries
    a [text] that is a string; when it fails, it is with a [KeyError] or a
    [TypeError]. *)
Theorem build_context_string_succeeds_iff :
  forall chunks : list value,
    ((exists s, build_context_string chunks = Ok s) <->
     (exists texts, Forall2 has_text chunks texts)) /\
    (forall e, build_context_string chunks = Raise e ->
               exc_type e = KeyError \/ exc_type e = TypeError).
Proof.
  intros chunks. split; [split |].
  - intros [s Hs]. eapply build_context_string_ok_inv, Hs.
  - intros [texts H]. eexists. apply (build_context_string_texts _ _ H).
  - apply build_context_string_raises.
Qed.

Lemma set_add_raises (v : value) (s : list value) (e : exn) :
  set_add v s = Raise e -> hashable v = false /\ exc_type e = TypeError.
Proof.
  unfold set_add. destruct (hashable v).
  - destruct (existsb (py_eq v) s); discriminate.
  - intros H. injection H as <-. now split.
Qed.

Lemma metadata_name_raises (chunk : value) (e : exn) :
  metadata_name chunk = Raise e ->
  exc_type e = KeyError \/ exc_type e = TypeError.
Proof.
  unfold metadata_name.
  destruct (getitem chunk "metadata") as [m |] eqn:Hm; simpl.
  - apply getitem_raises.
  - intros H. injection H as <-. eapply getitem_raises, Hm.
Qed.

Lemma set_comprehension_names_iff (chunks : list value) (s0 : list value) :
  ((exists s, set_comprehension metadata_name chunks s0 = Ok s) <->
   Forall name_ok chunks) /\
  (forall e, set_comprehension metadata_name chunks s0 = Raise e ->
             exc_type e = KeyError \/ exc_type e = TypeError).
Proof.
  revert s0. induction chunks as [|c cs IH]; intros s0; simpl.
  - split; [split |]; [constructor | now exists s0 | discriminate].
  - destruct (metadata_name c) as [n |] eqn:Hn; simpl.
    + destruct (set_add n s0) as [s1 |] eqn:Hadd; simpl.
      * assert (Hh : hashable n = true).
        { unfold set_add in Hadd. destruct (hashable n);
            [reflexivity | discriminate]. }
        destruct (IH s1) as [[IH1 IH2] IH3].
        split; [split |].
        -- intros H. constructor; [now exists n | now apply IH1].
        -- intros H. inversion H; subst. now apply IH2.
        -- exact IH3.
      * apply set_add_raises in Hadd as [Hh He].
        split; [split |].
        -- intros [s H]. discriminate.
        -- intros H. inversion H as [|? ? [n' [Hn' Hh']] _]; subst.
           congruence.
        -- intros e' H. injection H as <-. now right.
    + split; [split |].
      * intros [s H]. discriminate.
      * intros H. inversion H as [|? ? [n' [Hn' _]] _]; subst. congruence.
      * intros e' H. injection H as <-. eapply metadata_name_raises, Hn.
Qed.

Lemma extract_sources_unfold (w : World) (chunks : list value) :
  extract_sources w chunks
  = (s <~ set_comprehension metadata_name chunks [] ;; Ok (set_iter w s)).
Proof. reflexivity. Qed.

Lemma extract_sources_ok_inv (w : World) (chunks sources : list value) :
  extract_sources w chunks = Ok sources -> Forall name_ok chunks.
Proof.
  rewrite extract_sources_unfold. intros H.
  apply (set_comprehension_names_iff chunks []).
  destruct (set_comprehension metadata_name chunks []) as [s |];
    [now exists s | discriminate].
Qed.

Lemma extract_sources_names_ok (w : World) (chunks : list value) :
  Forall name_ok chunks ->
  exists sources, extract_sources w chunks = Ok sources.
Proof.
  intros H. rewrite extract_sources_unfold.
  apply (set_comprehension_names_iff chunks []) in H as [s Hs].
  rewrite Hs. eexists. reflexivity.
Qed.

Lemma extract_sources_raises (w : World) (chunks : list value) (e : exn) :
  extract_sources w chunks = Raise e ->
  exc_type e = KeyError \/ exc_type e = TypeError.
Proof.
  rewrite extract_sources_unfold. intros H.
  apply (proj2 (set_comprehension_names_iff chunks []) e).
  destruct (set_comprehension metadata_name chunks []); [discriminate |].
  exact H.
Qed.

(** X3.  [extract_sources] succeeds exactly when every chunk carries a
    [metadata.name] that can go into a set; when it fails, it is with a
    [KeyError] or a [TypeError]. *)
Theorem extract_sources_succeeds_iff :
  forall (w : World) (chunks : list value),
    ((exists sources, extract_sources w chunks = Ok sources) <->
     Forall name_ok chunks) /\
    (forall e, extract_sources w chunks = Raise e ->
               exc_type e = KeyError \/ exc_type e = TypeError).
Proof.
  intros w chunks. split; [split |].
  - intros [sources H]. eapply extract_sources_ok_inv, H.
  - apply extract_sources_names_ok.
  - apply extract_sources_raises.
Qed.

Lemma chunks_not_ok (w : World) (chunks : list value) :
  forallb chunk_ok chunks = false ->
  (exists e, build_context_string chunks = Raise e)
  \/ (exists e, extract_sources w chunks = Raise e).
Proof.
  intros Hbad.
  destruct (build_context_string chunks) as [s |] eqn:Hb;
    [| left; now eexists].
  destruct (extract_sources w chunks) as [l |] eqn:Hs;
    [| right; now eexists].
  exfalso.
  assert (Ht : exists texts, Forall2 has_text chunks texts)
    by (eapply build_context_string_ok_inv, Hb).
  assert (Hn : Forall name_ok chunks)
    by (eapply extract_sources_ok_inv, Hs).
  destruct Ht as [texts Ht].
  assert (Hall : forallb chunk_ok chunks = true).
  { clear Hbad Hb Hs. induction Ht as [|c t cs ts Hc _ IH]; [reflexivity |].
    inversion Hn as [|? ? [n [Hname Hh]] Hrest]; subst.
    simpl. rewrite (IH Hrest), andb_true_r.
    unfold chunk_ok. unfold has_text in Hc. now rewrite Hc, Hname. }
  congruence.
Qed.

(** X4.  When the service sends a list with an element that lacks a string
    [text] or a hashable [metadata.name], [get_compliance_answer] raises a
    [KeyError] or a [TypeError], and it does so before any completion is
    requested and without a log entry: only the retrieval request was
    made. *)
Theorem malformed_chunk_costs_no_completion :
  forall (cfg : Config) (w : World) (question : string) (tr : list event)
         (chunks : list value),
    fst (post_and_parse cfg w (query_payload question (TOP_K cfg)) [])
    = Ok (VList chunks) ->
    forallb chunk_ok chunks = false ->
    exists e,
      get_compliance_answer cfg w question tr
      = (Raise e,
         tr ++ [HttpPost (VECTOR_STORE_URL cfg)
                  (query_payload question (TOP_K cfg)) 10]) /\
      (exc_type e = KeyError \/ exc_type e = TypeError).
Proof.
  intros cfg w question tr chunks Hpost Hbad.
  pose proof (post_and_parse_frame cfg w
                (query_payload question (TOP_K cfg)) tr) as Hrun.
  rewrite Hpost in Hrun.
  pose proof (retrieve_context_list _ _ _ _ _ _ _ Hrun) as Hret.
  destruct (build_context_string chunks) as [context | e] eqn:Hb.
  - destruct (chunks_not_ok w chunks Hbad) as [[e He] | [e He]];
      [congruence |].
    exists e. split.
    + apply (answer_sources_raise _ _ _ _ _ _ _ _ Hret Hb He).
    + eapply extract_sources_raises, He.
  - exists e. split.
    + apply (answer_context_raises _ _ _ _ _ _ _ Hret Hb).
    + eapply build_context_string_raises, Hb.
Qed.

Lemma malformed_chunk_costs_no_completion_witness :
  exists e,
    get_compliance_answer default_config world_missing_text basel_question []
    = (Raise e,
       [] ++ [HttpPost (VECTOR_STORE_URL default_config)
                (query_payload basel_question (TOP_K default_config)) 10]) /\
    (exc_type e = KeyError \/ exc_type e = TypeError).
Proof.
  apply (malformed_chunk_costs_no_completion default_config
           world_missing_text basel_question [] [VDict []]);
    reflexivity.
Defined.

(** ** What the result triple tells *)

(** X5.  Whenever [get_compliance_answer] returns, its first component
    tells what happened.  It is [None] exactly when [retrieve_context]
    raised: then the answer is the text of that error, there is no source
    and no completion was requested.  Otherwise it is the very list
    [retrieve_context] returned, the sources are those of that list, and
    one completion was requested. *)
Theorem first_component_discriminates :
  forall (cfg : Config) (w : World) (question : string)
         (tr tr' : list event) (c : option (list value)) (answer : string)
         (sources : list value),
    get_compliance_answer cfg w question tr = (Ok (c, answer, sources), tr') ->
    exists events,
      tr' = tr ++ events /\
      match c with
      | None =>
          (exists err,
              fst (retrieve_context cfg w question (TOP_K cfg) [])
              = Raise err /\ answer = exc_str err) /\
          sources = [] /\
          filter is_llm_call events = []
      | Some chunks =>
          fst (retrieve_context cfg w question (TOP_K cfg) []) = Ok chunks /\
          extract_sources w chunks = Ok sources /\
          exists context,
            build_context_string chunks = Ok context /\
            filter is_llm_call events
            = [LlmCreate GROQ_MODEL LLM_TEMPERATURE
                 (prompt_messages question context)]
      end.
Proof.
  intros cfg w question tr tr' c answer sources Hrun.
  destruct (get_compliance_answer_shape cfg w question tr)
    as [r [events [Hrun' Hshape]]].
  rewrite Hrun in Hrun'. injection Hrun' as <- ->.
  exists events. split; [reflexivity |].
  inversion Hshape; subst; simpl.
  - repeat split; eauto.
  - repeat split; eauto.
  - repeat split; eauto.
Qed.

Lemma first_component_discriminates_witness :
  exists events,
    [HttpPost (VECTOR_STORE_URL default_config)
       (query_payload basel_question (TOP_K default_config)) 10;
     LogError
       "Retrieval failed: VectorStoreServer request timed out after 10 seconds."]
    = [] ++ events /\
    (exists err,
        fst (retrieve_context default_config world_read_timeout
               basel_question (TOP_K default_config) [])
        = Raise err /\
        "VectorStoreServer request timed out after 10 seconds."
        = exc_str err) /\
    @nil value = [] /\
    filter is_llm_call events = [].
Proof.
  apply (first_component_discriminates default_config world_read_timeout
           basel_question [] _ None _ []).
  reflexivity.
Defined.

(** ** Errors that are passed on, and errors that escape *)

Section Escapes.

Variable cfg : Config.
Variable w : World.

Lemma post_outcome (question : string) (tr : list event) (r : res value) :
  fst (post_and_parse cfg w (query_payload question (TOP_K cfg)) []) = r ->
  post_and_parse cfg w (query_payload question (TOP_K cfg)) tr
  = (r, tr ++ [HttpPost (VECTOR_STORE_URL cfg)
                 (query_payload question (TOP_K cfg)) 10]).
Proof. intros <-. apply post_and_parse_frame. Qed.

(** X6.  When the service cannot be reached (any [ConnectionError] of
    [requests], a proxy or TLS failure included), the result is
    [(None, message, [])] and the message names the configured address. *)
Theorem unreachable_message_names_endpoint :
  forall (question : string) (tr : list event) (e : exn),
    fst (post_and_parse cfg w (query_payload question (TOP_K cfg)) [])
    = Raise e ->
    isinstance e requests_ConnectionError = true ->
    exists msg,
      fst (get_compliance_answer cfg w question tr) = Ok (None, msg, []) /\
      contains (VECTOR_STORE_URL cfg) msg /\
      prefix "Cannot reach VectorStoreServer at " msg = true.
Proof.
  intros question tr e Hpost He.
  pose proof (retrieve_context_raise _ _ _ _ _ _ _
                (post_outcome question tr _ Hpost)) as Hret.
  unfold reraised in Hret. rewrite He in Hret.
  eexists. split; [| split].
  - now rewrite (answer_retrieval_caught _ _ _ _ _ _ Hret eq_refl).
  - exists "Cannot reach VectorStoreServer at ", ". Ensure main.py is running.".
    reflexivity.
  - simpl. repeat (destruct (ascii_dec _ _); [| congruence]).
    destruct (VECTOR_STORE_URL cfg ++ _)%string; reflexivity.
Qed.

(** X7.  When the service answers with an error status, the result is
    [(None, message, [])] and the message ends with the text of the
    [HTTPError], which carries the status. *)
Theorem error_status_detail_passed_on :
  forall (question : string) (tr : list event) (e : exn),
    fst (post_and_parse cfg w (query_payload question (TOP_K cfg)) [])
    = Raise e ->
    exc_type e = requests_HTTPError ->
    fst (get_compliance_answer cfg w question tr)
    = Ok (None,
          ("VectorStoreServer returned an error: " ++ exc_str e)%string,
          []).
Proof.
  intros question tr e Hpost He.
  pose proof (retrieve_context_raise _ _ _ _ _ _ _
                (post_outcome question tr _ Hpost)) as Hret.
  unfold reraised, isinstance in Hret. rewrite He in Hret. simpl in Hret.
  now rewrite (answer_retrieval_caught _ _ _ _ _ _ Hret eq_refl).
Qed.

(** X8.  An exception of the request that [retrieve_context] does not
    name but that is a [ValueError] or a built-in [ConnectionError] (a body
    that is no JSON, an address that is no URL) is reported with its own
    text: the result is [(None, str(e), [])]. *)
Theorem value_error_of_request_reported_verbatim :
  forall (question : string) (tr : list event) (e : exn),
    fst (post_and_parse cfg w (query_payload question (TOP_K cfg)) [])
    = Raise e ->
    clause_matches
      [requests_ConnectionError; requests_Timeout; requests_HTTPError] e
    = false ->
    clause_matches [ConnectionError; ValueError] e = true ->
    fst (get_compliance_answer cfg w question tr)
    = Ok (None, exc_str e, []).
Proof.
  intros question tr e Hpost Hnot Hval.
  pose proof (retrieve_context_raise _ _ _ _ _ _ _
                (post_outcome question tr _ Hpost)) as Hret.
  unfold clause_matches, existsb in Hnot.
  rewrite orb_false_r in Hnot.
  apply orb_false_iff in Hnot as [H1 Hnot].
  apply orb_false_iff in Hnot as [H2 H3].
  unfold reraised in Hret. rewrite H1, H2, H3 in Hret.
  now rewrite (answer_retrieval_caught _ _ _ _ _ _ Hret Hval).
Qed.

(** X9.  An exception of the request that no handler takes (a redirect
    loop, a broken transfer) leaves [get_compliance_answer] as it is,
    after the request alone: nothing is logged and no completion is
    requested. *)
Theorem unhandled_retrieval_error_escapes :
  forall (question : string) (tr : list event) (e : exn),
    fst (post_and_parse cfg w (query_payload question (TOP_K cfg)) [])
    = Raise e ->
    retrieval_error_handled e = false ->
    get_compliance_answer cfg w question tr
    = (Raise e,
       tr ++ [HttpPost (VECTOR_STORE_URL cfg)
                (query_payload question (TOP_K cfg)) 10]).
Proof.
  intros question tr e Hpost Hnot.
  pose proof (retrieve_context_raise _ _ _ _ _ _ _
                (post_outcome question tr _ Hpost)) as Hret.
  unfold retrieval_error_handled, clause_matches, existsb in Hnot.
  rewrite orb_false_r in Hnot.
  apply orb_false_iff in Hnot as [H1 Hnot].
  apply orb_false_iff in Hnot as [H2 Hnot].
  apply orb_false_iff in Hnot as [H3 Hnot].
  apply orb_false_iff in Hnot as [H4 H5].
  unfold reraised in Hret. rewrite H1, H2, H3 in Hret.
  apply (answer_retrieval_uncaught _ _ _ _ _ _ Hret).
  unfold clause_matches, existsb. now rewrite H4, H5.
Qed.

(** X10.  What the completion call raises without its being an
    [Exception] (an interrupt from the keyboard, an exit of the process)
    is not turned into an answer: it leaves [get_compliance_answer] as it
    is, and nothing is logged. *)
Theorem interrupt_passes_through :
  forall (question : string) (tr tr1 : list event) (chunks : list value)
         (context : string) (sources : list value) (e : exn),
    retrieve_context cfg w question (TOP_K cfg) tr = (Ok chunks, tr1) ->
    build_context_string chunks = Ok context ->
    extract_sources w chunks = Ok sources ->
    chat_completions_create w GROQ_MODEL LLM_TEMPERATURE
      (prompt_messages question context) = Raise e ->
    isinstance e Exception = false ->
    get_compliance_answer cfg w question tr
    = (Raise e,
       tr1 ++ [LlmCreate GROQ_MODEL LLM_TEMPERATURE
                 (prompt_messages question context)]).
Proof.
  intros question tr tr1 chunks context sources e Hret Hctx Hsrc Hllm He.
  pose proof (generate_raises w question context tr1 e Hllm) as Hgen.
  apply (answer_generation_uncaught _ _ _ _ _ _ _ _ _ _
           Hret Hctx Hsrc Hgen He).
Qed.

(** X11.  A completion that comes without any choice is a failure of the
    generation like another: the answer is the "LLM error" text of the
    [IndexError], next to the chunks and the sources. *)
Theorem completion_without_choice_reported :
  forall (question : string) (tr tr1 : list event) (chunks : list value)
         (context : string) (sources : list value)
         (completion : ChatCompletion),
    retrieve_context cfg w question (TOP_K cfg) tr = (Ok chunks, tr1) ->
    build_context_string chunks = Ok context ->
    extract_sources w chunks = Ok sources ->
    chat_completions_create w GROQ_MODEL LLM_TEMPERATURE
      (prompt_messages question context) = Ok completion ->
    choices completion = [] ->
    fst (get_compliance_answer cfg w question tr)
    = Ok (Some chunks, "LLM error: list index out of range", sources).
Proof.
  intros question tr tr1 chunks context sources completion
         Hret Hctx Hsrc Hllm Hnone.
  assert (Hgen : generate_compliance_response w question context tr1
                 = (Raise (mkExn IndexError "list index out of range"),
                    tr1 ++ [LlmCreate GROQ_MODEL LLM_TEMPERATURE
                              (prompt_messages question context)])).
  { unfold generate_compliance_response, bind, llm_create, lift.
    rewrite Hllm. unfold list_index. rewrite Hnone. reflexivity. }
  now rewrite (answer_generation_caught _ _ _ _ _ _ _ _ _ _
                 Hret Hctx Hsrc Hgen eq_refl).
Qed.

End Escapes.

Lemma unreachable_message_names_endpoint_witness :
  exists msg,
    fst (get_compliance_answer default_config world_connect_timeout
           basel_question [])
    = Ok (None, msg, []) /\
    contains (VECTOR_STORE_URL default_config) msg /\
    prefix "Cannot reach VectorStoreServer at " msg = true.
Proof.
  apply (unreachable_message_names_endpoint default_config
           world_connect_timeout basel_question [] connect_timeout);
    reflexivity.
Defined.

Lemma error_status_detail_passed_on_witness :
  fst (get_compliance_answer default_config world_server_error
         basel_question [])
  = Ok (None,
        ("VectorStoreServer returned an error: " ++ exc_str server_error)%string,
        []).
Proof.
  apply (error_status_detail_passed_on default_config world_server_error
           basel_question [] server_error);
    reflexivity.
Defined.

Lemma value_error_of_request_reported_verbatim_witness :
  fst (get_compliance_answer default_config world_undecodable
         basel_question [])
  = Ok (None, exc_str undecodable, []).
Proof.
  apply (value_error_of_request_reported_verbatim default_config
           world_undecodable basel_question [] undecodable);
    reflexivity.
Defined.

Lemma unhandled_retrieval_error_escapes_witness :
  get_compliance_answer default_config world_redirect_loop basel_question []
  = (Raise redirect_loop,
     [] ++ [HttpPost (VECTOR_STORE_URL default_config)
              (query_payload basel_question (TOP_K default_config)) 10]).
Proof.
  apply (unhandled_retrieval_error_escapes default_config
           world_redirect_loop basel_question [] redirect_loop);
    reflexivity.
Defined.

Lemma interrupt_passes_through_witness :
  get_compliance_answer default_config world_interrupted basel_question []
  = (Raise (mkExn KeyboardInterrupt EmptyString),
     [HttpPost (VECTOR_STORE_URL default_config)
        (query_payload basel_question (TOP_K default_config)) 10]
     ++ [LlmCreate GROQ_MODEL LLM_TEMPERATURE
           (prompt_messages basel_question basel_text)]).
Proof.
  apply (interrupt_passes_through default_config world_interrupted
           basel_question [] _ [basel_chunk] basel_text
           [VStr "basel_iii.pdf"]);
    reflexivity.
Defined.

Lemma completion_without_choice_reported_witness :
  fst (get_compliance_answer default_config world_no_choice
         basel_question [])
  = Ok (Some [basel_chunk], "LLM error: list index out of range",
        [VStr "basel_iii.pdf"]).
Proof.
  eapply (completion_without_choice_reported default_config world_no_choice
            basel_question [] _ [basel_chunk] basel_text
            [VStr "basel_iii.pdf"] (mkCompletion []));
    reflexivity.
Defined.

(** ** How contexts and sources compose *)

Lemma append_assoc (a b c : string) :
  ((a ++ b) ++ c)%string = (a ++ b ++ c)%string.
Proof. induction a as [|x a IH]; simpl; [reflexivity | now rewrite IH]. Qed.

Lemma concat_app (sep : string) (ta tb : list string) :
  ta <> [] -> tb <> [] ->
  String.concat sep (ta ++ tb)
  = (String.concat sep ta ++ sep ++ String.concat sep tb)%string.
Proof.
  intros Ha Hb. induction ta as [|t [|t' ts] IH]; [contradiction | |].
  - destruct tb; [contradiction | reflexivity].
  - change ((t :: t' :: ts) ++ tb) with (t :: t' :: ts ++ tb).
    rewrite concat_cons2.
    change (t' :: ts ++ tb) with ((t' :: ts) ++ tb).
    rewrite IH by discriminate. rewrite concat_cons2.
    now rewrite !append_assoc.
Qed.

Lemma append_assoc_nl (x y : string) :
  (x ++ (nl ++ nl) ++ y)%string = (x ++ nl ++ nl ++ y)%string.
Proof. reflexivity. Qed.

(** X12.  Contexts compose: the context of two chunk lists put one after
    the other is the context of the first, a blank line, and the context of
    the second (for lists that are not empty; an empty list adds
    nothing). *)
Theorem build_context_string_app :
  forall (a b : list value) (sa sb : string),
    build_context_string a = Ok sa ->
    build_context_string b = Ok sb ->
    build_context_string (a ++ b)
    = Ok (match a, b with
          | [], _ => sb
          | _, [] => sa
          | _, _ => sa ++ nl ++ nl ++ sb
          end)%string.
Proof.
  intros a b sa sb Ha Hb.
  destruct (build_context_string_ok_inv a sa Ha) as [ta Hta].
  destruct (build_context_string_ok_inv b sb Hb) as [tb Htb].
  rewrite (build_context_string_texts _ _ Hta) in Ha.
  rewrite (build_context_string_texts _ _ Htb) in Hb.
  injection Ha as <-. injection Hb as <-.
  rewrite (build_context_string_texts _ _ (Forall2_app Hta Htb)).
  f_equal.
  destruct a as [|ca a'].
  - inversion Hta; subst. reflexivity.
  - destruct b as [|cb b'].
    + inversion Htb; subst. now rewrite app_nil_r.
    + rewrite concat_app.
      * now rewrite append_assoc_nl.
      * inversion Hta; subst. discriminate.
      * inversion Htb; subst. discriminate.
Qed.

Lemma build_context_string_app_witness :
  build_context_string
    ([basel_chunk] ++ [VDict [("text", VStr "Tier 1 capital: 6%.")]])
  = Ok (basel_text ++ nl ++ nl ++ "Tier 1 capital: 6%.")%string.
Proof.
  apply (build_context_string_app
           [basel_chunk] [VDict [("text", VStr "Tier 1 capital: 6%.")]]
           basel_text "Tier 1 capital: 6%.");
    reflexivity.
Defined.

Lemma extract_sources_str_members (w : World) (chunks : list value)
    (names : list string) :
  set_iter_ok w ->
  Forall2 has_name chunks names ->
  exists sources,
    extract_sources w chunks = Ok sources /\
    NoDup sources /\
    (forall v, In v sources <-> exists n, v = VStr n /\ In n names).
Proof.
  intros Hiter H.
  destruct (set_comprehension_names chunks names H [])
    as [s [Hrun [Hnd [Hin _]]]].
  specialize (Hnd (NoDup_nil _)).
  pose proof (Hiter s) as Hperm.
  exists (set_iter w s). unfold extract_sources. rewrite Hrun. simpl.
  split; [reflexivity |]. split.
  - eapply Permutation_NoDup; [apply Permutation_sym |]; eassumption.
  - intros v. split.
    + intros Hv. apply (Permutation_in _ Hperm) in Hv.
      apply Hin in Hv as [[] | Hv]. exact Hv.
    + intros Hv. apply (Permutation_in _ (Permutation_sym Hperm)).
      apply Hin. now right.
Qed.

(** X13.  Only the set of names matters to [extract_sources]: two chunk
    lists that carry the same names (as strings), in whatever order and
    however often, give the same sources up to their order. *)
Theorem extract_sources_only_names_matter :
  forall (w : World) (chunks chunks' : list value)
         (names names' : list string),
    set_iter_ok w ->
    Forall2 has_name chunks names ->
    Forall2 has_name chunks' names' ->
    (forall n, In n names <-> In n names') ->
    exists sources sources',
      extract_sources w chunks = Ok sources /\
      extract_sources w chunks' = Ok sources' /\
      Permutation sources sources'.
Proof.
  intros w chunks chunks' names names' Hiter H H' Hsame.
  destruct (extract_sources_str_members w chunks names Hiter H)
    as [l [Hl [Hnd Hin]]].
  destruct (extract_sources_str_members w chunks' names' Hiter H')
    as [l' [Hl' [Hnd' Hin']]].
  exists l, l'. repeat split; try assumption.
  apply NoDup_Permutation; try assumption.
  intros v. rewrite Hin, Hin'. split; intros [n [-> Hn]]; exists n;
    (split; [reflexivity | now apply Hsame]).
Qed.

Lemma extract_sources_only_names_matter_witness :
  exists sources sources',
    extract_sources world_basel
      [basel_chunk; chunk_without_dist;
       VDict [("metadata", VDict [("name", VStr "sebi_lodr.pdf")])]]
    = Ok sources /\
    extract_sources world_basel
      [VDict [("metadata", VDict [("name", VStr "sebi_lodr.pdf")])];
       basel_chunk]
    = Ok sources' /\
    Permutation sources sources'.
Proof.
  apply (extract_sources_only_names_matter world_basel _ _
           ["basel_iii.pdf"; "basel_iii.pdf"; "sebi_lodr.pdf"]
           ["sebi_lodr.pdf"; "basel_iii.pdf"]).
  - intros s. apply Permutation_refl.
  - repeat constructor.
  - repeat constructor.
  - intros n. simpl. tauto.
Defined.

(** ** Names that are not strings *)







(** ** The snippet of a chunk *)

Lemma is_lf_not_continuation (a : ascii) :
  is_lf a = true -> is_continuation a = false.
Proof.
  unfold is_lf. intros H. apply Ascii.eqb_eq in H. now subst.
Qed.

Lemma take_chars_count (n : nat) (s : string) :
  char_count (take_chars n s) <= n.
Proof.
  revert n. induction s as [|a s IH]; intros n; simpl; [lia |].
  destruct (is_continuation a) eqn:Ha; simpl.
  - rewrite Ha. apply IH.
  - destruct n as [|k]; simpl; [lia |].
    rewrite Ha. specialize (IH k). lia.
Qed.

Lemma take_chars_all (n : nat) (s : string) :
  char_count s <= n -> take_chars n s = s.
Proof.
  revert n. induction s as [|a s IH]; intros n; simpl; [reflexivity |].
  destruct (is_continuation a); intros H.
  - now rewrite IH.
  - destruct n as [|k]; [lia |]. rewrite IH; [reflexivity | lia].
Qed.

Lemma replace_lf_count (s : string) :
  char_count (replace_lf s) = char_count s.
Proof.
  induction s as [|a s IH]; simpl; [reflexivity |].
  destruct (is_lf a) eqn:Ha.
  - rewrite (is_lf_not_continuation a Ha). simpl. now rewrite IH.
  - now rewrite IH.
Qed.

Lemma replace_lf_no_newline (s : string) :
  no_newline (replace_lf s) = true.
Proof.
  induction s as [|a s IH]; simpl; [reflexivity |].
  rewrite IH, andb_true_r. destruct (is_lf a) eqn:Ha; [reflexivity |].
  now rewrite Ha.
Qed.

Lemma replace_lf_same (s : string) :
  no_newline s = true -> replace_lf s = s.
Proof.
  induction s as [|a s IH]; simpl; [reflexivity |].
  intros H. apply andb_true_iff in H as [Ha Hs].
  apply negb_true_iff in Ha. rewrite Ha, (IH Hs). reflexivity.
Qed.

(** X15.  The snippet shown for a chunk is one line of at most 160
    characters: it holds no line feed, and a text of at most 160
    characters without a line feed is shown whole. *)
Theorem snippet_is_one_short_line :
  forall text : string,
    no_newline (snippet text) = true /\
    char_count (snippet text) <= 160 /\
    (char_count text <= 160 -> no_newline text = true ->
     snippet text = text).
Proof.
  intros text. unfold snippet. split; [| split].
  - apply replace_lf_no_newline.
  - rewrite replace_lf_count. apply take_chars_count.
  - intros Hlen Hnl. rewrite (take_chars_all _ _ Hlen).
    now apply replace_lf_same.
Qed.

(** ** Computations at the console *)

Lemma framed_ret {A} (a : A) : framed (io_ret a).
Proof. intros tr. unfold io_ret. simpl. now rewrite app_nil_r. Qed.

Lemma framed_print (text : string) : framed (print text).
Proof. intros tr. reflexivity. Qed.

Lemma framed_lift {A} (r : res A) : framed (io_lift r).
Proof. intros tr. unfold io_lift. simpl. now rewrite app_nil_r. Qed.

Lemma framed_call {A} (m : M A) : framed (call m).
Proof. intros tr. unfold call. destruct (m []). reflexivity. Qed.

Lemma framed_bind {A B} (m : IO A) (k : A -> IO B) :
  framed m -> (forall a, framed (k a)) -> framed (io_bind m k).
Proof.
  intros Hm Hk tr. unfold io_bind.
  rewrite (Hm tr). destruct (m []) as [[a | e] evs]; simpl.
  - rewrite (Hk a (tr ++ evs)), (Hk a evs). simpl.
    now rewrite app_assoc.
  - reflexivity.
Qed.

Lemma framed_for_each {A} (body : nat -> A -> IO unit) (xs : list A) :
  (forall i x, framed (body i x)) ->
  forall start, framed (for_each body start xs).
Proof.
  intros Hbody. induction xs as [|x xs IH]; intros start; simpl.
  - apply framed_ret.
  - apply framed_bind; [apply Hbody | intros _; apply IH].
Qed.

Lemma run_framed {A} (m : IO A) (tr : list console_event) :
  framed m -> m tr = (fst (m []), tr ++ snd (m [])).
Proof. intros H. apply H. Qed.

Section ConsoleFrames.

Variable cfg : Config.
Variable num : Numerics.

Lemma framed_show (w : World) (rank : nat) (chunk : value) :
  framed (show_chunk num w rank chunk).
Proof.
  unfold show_chunk.
  repeat (apply framed_bind; [apply framed_lift | intros ?]).
  repeat (apply framed_bind; [apply framed_print | intros _]).
  apply framed_print.
Qed.

Lemma framed_display_semantic_results (w : World) (chunks : list value) :
  framed (display_semantic_results num w chunks).
Proof.
  unfold display_semantic_results.
  repeat (apply framed_bind; [apply framed_print | intros _]).
  apply framed_for_each. intros i chunk. apply framed_show.
Qed.

Lemma framed_display_citations (w : World) (sources : list value) :
  framed (display_citations w sources).
Proof.
  unfold display_citations.
  repeat (apply framed_bind; [apply framed_print | intros _]).
  apply framed_for_each. intros i source. apply framed_print.
Qed.

Lemma framed_report (w : World) (result : answer_triple) :
  framed (report num w result).
Proof.
  destruct result as [[[chunks |] answer] sources]; simpl.
  - repeat (apply framed_bind; [apply framed_print | intros _]).
    apply framed_bind; [apply framed_display_semantic_results | intros _].
    apply framed_display_citations.
  - apply framed_print.
Qed.

Lemma framed_query_round (w : World) (query : string) :
  framed (query_round cfg num w query).
Proof.
  unfold query_round.
  apply framed_bind; [apply framed_print | intros _].
  apply framed_bind; [apply framed_call | intros result].
  apply framed_report.
Qed.

(** A round of the loop is its step, and the loop on the turns left when
    the step goes on. *)
Lemma demo_loop_step (t : turn) (rest : list turn)
    (tr : list console_event) :
  demo_loop cfg num (t :: rest) tr
  = match turn_step cfg num t with
    | (Continue, evs) => demo_loop cfg num rest (tr ++ evs)
    | (Stop, evs) => (Ok tt, tr ++ evs)
    | (Crash e, evs) => (Raise e, tr ++ evs)
    end.
Proof.
  unfold turn_step, round_head.
  cbn [demo_loop]. unfold io_bind at 1. unfold print at 1.
  destruct (typed t) as [s |].
  - cbv zeta. destruct (String.eqb (strip s) EmptyString).
    + now rewrite <- app_assoc.
    + destruct (is_exit_command (strip s)).
      * unfold print. now rewrite <- !app_assoc.
      * unfold io_bind.
        rewrite (run_framed _ _ (framed_query_round (services t) (strip s))).
        destruct (query_round cfg num (services t) (strip s) [])
          as [[[] | e] evs]; simpl; now rewrite <- !app_assoc.
  - unfold print. now rewrite <- !app_assoc.
Qed.

Lemma demo_loop_end (tr : list console_event) :
  demo_loop cfg num [] tr
  = (Ok tt, tr ++ round_head ++ [Printed (nl ++ goodbye)]).
Proof.
  cbn [demo_loop]. unfold io_bind, print, round_head.
  now rewrite <- !app_assoc.
Qed.

End ConsoleFrames.

(** ** The evidence display *)

Section Display.

Variable num : Numerics.
Variable w : World.










End Display.

(** ** The interactive loop *)

Lemma quiet_print (text : string) : quiet (print text).
Proof. intros ev [H | []]. discriminate. Qed.

Lemma quiet_ret {A} (a : A) : quiet (io_ret a).
Proof. intros ev []. Qed.

Lemma quiet_lift {A} (r : res A) : quiet (io_lift r).
Proof. intros ev []. Qed.

Lemma quiet_bind {A B} (m : IO A) (k : A -> IO B) :
  quiet m -> (forall a, framed (k a)) -> (forall a, quiet (k a)) ->
  quiet (io_bind m k).
Proof.
  intros Hm Hf Hk ev. unfold io_bind.
  specialize (Hm ev). destruct (m []) as [[a | e] evs]; simpl in *.
  - rewrite (Hf a evs). simpl. intros H.
    apply in_app_or in H as [H | H]; [now apply Hm | now apply (Hk a ev)].
  - exact Hm.
Qed.

Lemma quiet_for_each {A} (body : nat -> A -> IO unit) (xs : list A) :
  (forall i x, framed (body i x)) -> (forall i x, quiet (body i x)) ->
  forall start, quiet (for_each body start xs).
Proof.
  intros Hf Hq. induction xs as [|x xs IH]; intros start; simpl.
  - apply quiet_ret.
  - apply quiet_bind; [apply Hq | | intros _; apply IH].
    intros _. now apply framed_for_each.
Qed.

Section Session.

Variable cfg : Config.
Variable num : Numerics.

Lemma quiet_show (w : World) (rank : nat) (chunk : value) :
  quiet (show_chunk num w rank chunk).
Proof.
  unfold show_chunk.
  repeat (apply quiet_bind;
          [apply quiet_lift
          | intros ?;
            repeat (apply framed_bind; [apply framed_lift | intros ?]);
            repeat (apply framed_bind; [apply framed_print | intros _]);
            apply framed_print
          | intros ?]).
  repeat (apply quiet_bind;
          [apply quiet_print
          | intros _;
            repeat (apply framed_bind; [apply framed_print | intros _]);
            apply framed_print
          | intros _]).
  apply quiet_print.
Qed.

Lemma quiet_display_semantic_results (w : World) (chunks : list value) :
  quiet (display_semantic_results num w chunks).
Proof.
  unfold display_semantic_results.
  apply quiet_bind; [apply quiet_print | | intros _].
  - intros _. apply framed_bind; [apply framed_print | intros _].
    apply framed_for_each. intros i x. apply framed_show.
  - apply quiet_bind; [apply quiet_print | | intros _].
    + intros _. apply framed_for_each. intros i x. apply framed_show.
    + apply quiet_for_each; intros i x;
        [apply framed_show | apply quiet_show].
Qed.

Lemma quiet_display_citations (w : World) (sources : list value) :
  quiet (display_citations w sources).
Proof.
  unfold display_citations.
  apply quiet_bind; [apply quiet_print | | intros _].
  - intros _. apply framed_bind; [apply framed_print | intros _].
    apply framed_for_each. intros i x. apply framed_print.
  - apply quiet_bind; [apply quiet_print | | intros _].
    + intros _. apply framed_for_each. intros i x. apply framed_print.
    + apply quiet_for_each; intros i x;
        [apply framed_print | apply quiet_print].
Qed.

Lemma quiet_report (w : World) (result : answer_triple) :
  quiet (report num w result).
Proof.
  destruct result as [[[chunks |] answer] sources]; simpl.
  - repeat (apply quiet_bind;
            [apply quiet_print
            | intros _;
              repeat (apply framed_bind; [apply framed_print | intros _]);
              (apply framed_bind;
               [apply framed_display_semantic_results | intros _]);
              apply framed_display_citations
            | intros _]).
    apply quiet_bind;
      [apply quiet_display_semantic_results
      | intros _; apply framed_display_citations
      | intros _; apply quiet_display_citations].
  - apply quiet_print.
Qed.

Lemma query_round_run (w : World) (query : string) :
  query_round cfg num w query []
  = match get_compliance_answer cfg w query [] with
    | (Ok result, evs) =>
        (fst (report num w result []),
         Printed (nl ++ "🔍 [1/3] Querying Pathway vector store...")
         :: map Service evs ++ snd (report num w result []))
    | (Raise e, evs) =>
        (Raise e,
         Printed (nl ++ "🔍 [1/3] Querying Pathway vector store...")
         :: map Service evs)
    end.
Proof.
  unfold query_round, io_bind at 1 2, print at 1, call.
  destruct (get_compliance_answer cfg w query []) as [[result | e] evs];
    [| reflexivity].
  cbn [app].
  now rewrite (run_framed _ _ (framed_report num w result)).
Qed.

Lemma question_of_inv (t : turn) (query : string) :
  question_of t = Some query ->
  exists s,
    typed t = Line s /\ query = strip s /\
    String.eqb (strip s) EmptyString = false /\
    is_exit_command (strip s) = false.
Proof.
  unfold question_of. destruct (typed t) as [s |]; [| discriminate].
  cbv zeta. destruct (String.eqb (strip s) EmptyString) eqn:Hb;
    [discriminate |].
  destruct (is_exit_command (strip s)) eqn:He; [discriminate |].
  intros H. injection H as <-. now exists s.
Qed.

Lemma turn_step_question (t : turn) (query : string) :
  question_of t = Some query ->
  turn_step cfg num t
  = match query_round cfg num (services t) query [] with
    | (Ok _, evs) => (Continue, round_head ++ evs)
    | (Raise e, evs) => (Crash e, round_head ++ evs)
    end.
Proof.
  intros H. destruct (question_of_inv t query H) as [s [Ht [-> [Hb He]]]].
  unfold turn_step. rewrite Ht. cbv zeta. now rewrite Hb, He.
Qed.

Lemma turn_step_no_question (t : turn) :
  question_of t = None ->
  forall ev, ~ In (Service ev) (snd (turn_step cfg num t)).
Proof.
  unfold question_of, turn_step. destruct (typed t) as [s |].
  - cbv zeta. destruct (String.eqb (strip s) EmptyString).
    + intros _ ev [H | [H | []]]; discriminate.
    + destruct (is_exit_command (strip s)); [| discriminate].
      intros _ ev [H | [H | [H | []]]]; discriminate.
  - intros _ ev [H | [H | [H | []]]]; discriminate.
Qed.

(** X17.  A line that is blank once stripped is a round without effect:
    the rule and the prompt are shown, nothing is sent to either service,
    and the session goes on with the next line. *)
Theorem blank_line_is_no_op :
  forall (s : string) (w : World) (rest : list turn)
         (tr : list console_event),
    strip s = EmptyString ->
    demo_loop cfg num (mkTurn (Line s) w :: rest) tr
    = demo_loop cfg num rest
        (tr ++ [Printed (repeat_str "─" 60); Prompted "🤖 Query: "]).
Proof.
  intros s w rest tr Hblank. rewrite demo_loop_step.
  unfold turn_step. cbn [typed]. cbv zeta. now rewrite Hblank.
Qed.

Lemma ending_turn_stops (t : turn) :
  typed t = CtrlC
  \/ (exists s, typed t = Line s /\ is_exit_command (strip s) = true) ->
  exists evs text,
    turn_step cfg num t = (Stop, round_head ++ [Printed text]) /\
    evs = round_head ++ [Printed text] /\
    (text = goodbye \/ text = (nl ++ goodbye)%string).
Proof.
  unfold turn_step. intros [H | [s [H He]]]; rewrite H.
  - do 2 eexists. repeat split. now right.
  - cbv zeta. destruct (String.eqb (strip s) EmptyString) eqn:Hb.
    + apply String.eqb_eq in Hb. rewrite Hb in He. discriminate.
    + rewrite He. do 2 eexists. repeat split. now left.
Qed.

(** X18.  The words [exit] and [quit], in whatever case and with whatever
    white space around them, and an interrupt at the prompt end the
    session: whatever is typed afterwards is never read, and no service is
    touched in that round. *)
Theorem nothing_is_read_after_the_end :
  forall (before after : list turn) (t : turn) (tr : list console_event),
    typed t = CtrlC
    \/ (exists s, typed t = Line s /\ is_exit_command (strip s) = true) ->
    demo_loop cfg num (before ++ t :: after) tr
    = demo_loop cfg num (before ++ [t]) tr /\
    forall ev, ~ In (Service ev) (snd (turn_step cfg num t)).
Proof.
  intros before after t tr Hend.
  destruct (ending_turn_stops t Hend) as [evs [text [Hstep _]]].
  split.
  - revert tr. induction before as [|b bs IH]; intros tr.
    + cbn [app]. now rewrite !demo_loop_step, Hstep.
    + change ((b :: bs) ++ t :: after) with (b :: bs ++ t :: after).
      change ((b :: bs) ++ [t]) with (b :: bs ++ [t]).
      rewrite !demo_loop_step.
      destruct (turn_step cfg num b) as [[| | e] evs']; auto.
  - rewrite Hstep. intros ev [H | [H | [H | []]]]; discriminate.
Qed.

Lemma demo_loop_services (turns : list turn) (tr : list console_event)
    (ev : event) :
  In (Service ev) (snd (demo_loop cfg num turns tr)) ->
  In (Service ev) tr
  \/ exists t query,
       In t turns /\ question_of t = Some query /\
       In ev (snd (get_compliance_answer cfg (services t) query [])).
Proof.
  revert tr. induction turns as [|t rest IH]; intros tr.
  - rewrite demo_loop_end. cbn [snd]. intros H.
    apply in_app_or in H as [H | [H | [H | [H | []]]]];
      [now left | discriminate..].
  - rewrite demo_loop_step.
    assert (Hstep : In (Service ev) (snd (turn_step cfg num t)) ->
                    exists query,
                      question_of t = Some query /\
                      In ev (snd (get_compliance_answer cfg (services t)
                                    query []))).
    { destruct (question_of t) as [query |] eqn:Hq.
      - rewrite (turn_step_question t query Hq), query_round_run.
        intros H. exists query. split; [reflexivity |].
        destruct (get_compliance_answer cfg (services t) query [])
          as [[result | e] evs].
        + assert (Hin : In (Service ev)
                          (round_head
                           ++ Printed (nl ++ "🔍 [1/3] Querying Pathway vector store...")
                              :: map Service evs
                              ++ snd (report num (services t) result []))).
          { destruct (fst (report num (services t) result [])); exact H. }
          apply in_app_or in Hin as [[Hin | [Hin | []]] | [Hin | Hin]];
            try discriminate.
          apply in_app_or in Hin as [Hin | Hin].
          * apply in_map_iff in Hin as [ev' [Heq Hin]].
            injection Heq as <-. exact Hin.
          * now apply quiet_report in Hin.
        + cbn [snd] in H.
          apply in_app_or in H as [[H | [H | []]] | [H | H]];
            try discriminate.
          apply in_map_iff in H as [ev' [Heq H]].
          injection Heq as <-. exact H.
      - intros H. now apply (turn_step_no_question t Hq) in H. }
    destruct (turn_step cfg num t) as [[| | e] evs]; cbn [snd] in *.
    + intros H. apply IH in H as [H | [t' [query [Ht' Hq]]]].
      * apply in_app_or in H as [H | H]; [now left |].
        right. destruct (Hstep H) as [query Hq].
        exists t, query. split; [now left | exact Hq].
      * right. exists t', query. split; [now right | exact Hq].
    + intros H. apply in_app_or in H as [H | H]; [now left |].
      right. destruct (Hstep H) as [query Hq].
      exists t, query. split; [now left | exact Hq].
    + intros H. apply in_app_or in H as [H | H]; [now left |].
      right. destruct (Hstep H) as [query Hq].
      exists t, query. split; [now left | exact Hq].
Qed.

Lemma run_demo_run (turns : list turn) (tr : list console_event) :
  run_demo cfg num turns tr
  = demo_loop cfg num turns
      (tr ++ [Printed (nl ++ repeat_str "=" 60);
              Printed "  🏦 PATHWAY + GROQ: REAL-TIME COMPLIANCE AGENT";
              Printed (repeat_str "=" 60);
              Printed "Connected to live Google Drive. Monitoring regulatory changes.";
              Printed ("Type 'exit' or 'quit' to shut down." ++ nl)]).
Proof.
  unfold run_demo, io_bind, print. now rewrite <- !app_assoc.
Qed.

(** X19.  Whatever is typed in a session, the services only ever get
    questions: every retrieval request of [run_demo] carries the stripped
    text of a typed line that is neither blank nor [exit] or [quit], goes
    to the configured address with the configured [k], and every
    completion request is for such a question. *)
Theorem only_questions_reach_the_services :
  forall (turns : list turn),
    (forall url payload timeout,
        In (Service (HttpPost url payload timeout))
           (snd (run_demo cfg num turns [])) ->
        exists t query,
          In t turns /\ question_of t = Some query /\
          url = VECTOR_STORE_URL cfg /\
          payload = query_payload query (TOP_K cfg) /\
          timeout = 10%Z) /\
    (forall model temperature messages,
        In (Service (LlmCreate model temperature messages))
           (snd (run_demo cfg num turns [])) ->
        exists t query context,
          In t turns /\ question_of t = Some query /\
          messages = prompt_messages query context).
Proof.
  intros turns. split.
  - intros url payload timeout H. rewrite run_demo_run in H.
    apply demo_loop_services in H as [H | [t [query [Ht [Hq H]]]]].
    + cbn [app] in H.
      repeat (destruct H as [H | H]; [discriminate |]). contradiction.
    + exists t, query. split; [exact Ht |]. split; [exact Hq |].
      destruct (get_compliance_answer_shape cfg (services t) query [])
        as [r [events [Hrun Hshape]]].
      rewrite Hrun in H. cbn [snd app] in H.
      inversion Hshape; subst; cbn [In] in H;
        repeat match goal with
               | H : _ \/ _ |- _ => destruct H as [H | H]
               | H : False |- _ => contradiction
               | H : HttpPost _ _ _ = HttpPost _ _ _ |- _ =>
                   injection H as <- <- <-
               | H : LogError _ = HttpPost _ _ _ |- _ => discriminate
               | H : LlmCreate _ _ _ = HttpPost _ _ _ |- _ => discriminate
               end; now repeat split.
  - intros model temperature messages H. rewrite run_demo_run in H.
    apply demo_loop_services in H as [H | [t [query [Ht [Hq H]]]]].
    + cbn [app] in H.
      repeat (destruct H as [H | H]; [discriminate |]). contradiction.
    + destruct (get_compliance_answer_shape cfg (services t) query [])
        as [r [events [Hrun Hshape]]].
      rewrite Hrun in H. cbn [snd app] in H.
      inversion Hshape; subst; cbn [In] in H;
        repeat match goal with
               | H : _ \/ _ |- _ => destruct H as [H | H]
               | H : False |- _ => contradiction
               | H : LogError _ = LlmCreate _ _ _ |- _ => discriminate
               | H : HttpPost _ _ _ = LlmCreate _ _ _ |- _ => discriminate
               | H : LlmCreate _ _ _ = LlmCreate _ _ _ |- _ =>
                   injection H as <- <- <-
               end;
        exists t, query; eexists; now repeat split.
Qed.


(** X21.  The loop has no handler around the query: an exception that
    leaves [get_compliance_answer] (a chunk without [text], an error of the
    request that no handler names) ends the session with that exception,
    and the lines typed afterwards are never read. *)
Theorem escaping_exception_ends_the_session :
  forall (t : turn) (query : string) (e : exn) (evs : list event)
         (rest : list turn) (tr : list console_event),
    question_of t = Some query ->
    get_compliance_answer cfg (services t) query [] = (Raise e, evs) ->
    demo_loop cfg num (t :: rest) tr
    = (Raise e,
       tr ++ round_head
       ++ Printed (nl ++ "🔍 [1/3] Querying Pathway vector store...")
          :: map Service evs).
Proof.
  intros t query e evs rest tr Hq Hrun.
  rewrite demo_loop_step, (turn_step_question t query Hq), query_round_run,
    Hrun.
  reflexivity.
Qed.


Lemma demo_loop_normal_end (turns : list turn) (tr : list console_event) :
  fst (demo_loop cfg num turns tr) = Ok tt ->
  exists shown text,
    snd (demo_loop cfg num turns tr) = tr ++ shown ++ [Printed text] /\
    (text = goodbye \/ text = (nl ++ goodbye)%string).
Proof.
  revert tr. induction turns as [|t rest IH]; intros tr.
  - rewrite demo_loop_end. intros _. exists round_head, (nl ++ goodbye)%string.
    split; [reflexivity | now right].
  - rewrite demo_loop_step.
    destruct (turn_step cfg num t) as [[| | e] evs] eqn:Hstep.
    + intros H. destruct (IH _ H) as [shown [text [Hs Ht]]].
      exists (evs ++ shown), text. split; [| exact Ht].
      rewrite Hs. now rewrite <- !app_assoc.
    + intros _. cbn [snd].
      assert (Hlast : exists shown text,
                 evs = shown ++ [Printed text] /\
                 (text = goodbye \/ text = (nl ++ goodbye)%string)).
      { unfold turn_step in Hstep. destruct (typed t) as [s |].
        - cbv zeta in Hstep.
          destruct (String.eqb (strip s) EmptyString); [discriminate |].
          destruct (is_exit_command (strip s)).
          + injection Hstep as <-. exists round_head, goodbye.
            split; [reflexivity | now left].
          + destruct (query_round cfg num (services t) (strip s) [])
              as [[] ?]; discriminate.
        - injection Hstep as <-. exists round_head, (nl ++ goodbye)%string.
          split; [reflexivity | now right]. }
      destruct Hlast as [shown [text [-> Ht]]].
      now exists shown, text.
    + discriminate.
Qed.

(** X23.  A session that ends without an exception ends with the goodbye
    line, whether it was ended by [exit] or [quit], by an interrupt at the
    prompt or by the end of the input. *)
Theorem normal_end_says_goodbye :
  forall (turns : list turn) (tr : list console_event),
    fst (run_demo cfg num turns tr) = Ok tt ->
    exists shown text,
      snd (run_demo cfg num turns tr) = tr ++ shown ++ [Printed text] /\
      (text = goodbye \/ text = (nl ++ goodbye)%string).
Proof.
  intros turns tr. rewrite run_demo_run. intros H.
  destruct (demo_loop_normal_end _ _ H) as [shown [text [Hs Ht]]].
  exists ([Printed (nl ++ repeat_str "=" 60);
           Printed "  🏦 PATHWAY + GROQ: REAL-TIME COMPLIANCE AGENT";
           Printed (repeat_str "=" 60);
           Printed "Connected to live Google Drive. Monitoring regulatory changes.";
           Printed ("Type 'exit' or 'quit' to shut down." ++ nl)] ++ shown), text.
  split; [| exact Ht].
  rewrite Hs. now rewrite <- !app_assoc.
Qed.

End Session.

Lemma blank_line_is_no_op_witness :
  demo_loop default_config sample_numerics
    (mkTurn (Line "   ") world_basel :: []) []
  = demo_loop default_config sample_numerics []
      ([] ++ [Printed (repeat_str "─" 60); Prompted "🤖 Query: "]).
Proof.
  apply (blank_line_is_no_op default_config sample_numerics
           "   " world_basel [] []).
  reflexivity.
Defined.

Lemma nothing_is_read_after_the_end_witness :
  demo_loop default_config sample_numerics
    ([mkTurn (Line "   ") world_basel]
     ++ mkTurn (Line "  EXIT ") world_basel
     :: [mkTurn (Line basel_question) world_basel]) []
  = demo_loop default_config sample_numerics
      ([mkTurn (Line "   ") world_basel]
       ++ [mkTurn (Line "  EXIT ") world_basel]) [] /\
  forall ev,
    ~ In (Service ev)
        (snd (turn_step default_config sample_numerics
                (mkTurn (Line "  EXIT ") world_basel))).
Proof.
  apply (nothing_is_read_after_the_end default_config sample_numerics
           [mkTurn (Line "   ") world_basel]
           [mkTurn (Line basel_question) world_basel]
           (mkTurn (Line "  EXIT ") world_basel) []).
  right. exists "  EXIT ". split; reflexivity.
Defined.


Lemma escaping_exception_ends_the_session_witness :
  demo_loop default_config sample_numerics
    (mkTurn (Line basel_question) world_missing_text
     :: [mkTurn (Line basel_question) world_basel]) []
  = (Raise (mkExn KeyError "'text'"),
     [] ++ round_head
     ++ Printed (nl ++ "🔍 [1/3] Querying Pathway vector store...")
        :: map Service
             [HttpPost (VECTOR_STORE_URL default_config)
                (query_payload basel_question (TOP_K default_config)) 10]).
Proof.
  apply (escaping_exception_ends_the_session default_config sample_numerics
           (mkTurn (Line basel_question) world_missing_text)
           basel_question);
    reflexivity.
Defined.


Lemma normal_end_says_goodbye_witness :
  exists shown text,
    snd (run_demo default_config sample_numerics sample_session [])
    = [] ++ shown ++ [Printed text] /\
    (text = goodbye \/ text = (nl ++ goodbye)%string).
Proof.
  apply (normal_end_says_goodbye default_config sample_numerics
           sample_session []).
  reflexivity.
Defined.

Lemma build_context_string_succeeds_iff_witness :
  exists s, build_context_string [basel_chunk; chunk_without_dist] = Ok s.
Proof.
  apply (proj1 (build_context_string_succeeds_iff
                  [basel_chunk; chunk_without_dist])).
  exists [basel_text; "Tier 1 capital: 6%."]. repeat constructor.
Defined.

Lemma extract_sources_succeeds_iff_witness :
  exists sources,
    extract_sources world_basel [basel_chunk; chunk_without_dist]
    = Ok sources.
Proof.
  apply (proj1 (extract_sources_succeeds_iff world_basel
                  [basel_chunk; chunk_without_dist])).
  repeat constructor; exists (VStr "basel_iii.pdf"); split; reflexivity.
Defined.

Lemma snippet_is_one_short_line_witness : snippet basel_text = basel_text.
Proof.
  apply (proj2 (proj2 (snippet_is_one_short_line basel_text))).
  - vm_compute. repeat constructor.
  - reflexivity.
Defined.


Lemma only_questions_reach_the_services_witness :
  exists t query,
    In t sample_session /\ question_of t = Some query /\
    VECTOR_STORE_URL default_config = VECTOR_STORE_URL default_config /\
    query_payload basel_question (TOP_K default_config)
    = query_payload query (TOP_K default_config) /\
    10%Z = 10%Z.
Proof.
  apply (proj1 (only_questions_reach_the_services default_config
                  sample_numerics sample_session)).
  vm_compute. do 10 right. left. reflexivity.
Defined.
